(** * ZPL2 label builder (zpl/label.py): a shallow embedding

    The Python class [Label] accumulates a ZPL2 command stream in the
    string attribute [code].  Every method is modelled as a computation
    over the label object that either returns a value or raises; an
    exception leaves the object as it was when the exception was raised,
    which is what a caller catching it observes.

    Modelling conventions.
    - Python [str] is [string]; one [ascii] is one character, so the
      development speaks about ASCII text.
    - Lengths given in millimetres (and [dpmm]) are exact rationals [Q]:
      Python ints are covered exactly, Python floats as long as the
      products involved are exact.  Quantities that the source only ever
      formats with [%i] or [%s] and documents as dots or counts are [Z].
      The one division of the module, the proportional height
      [float(h)/w*width], is computed in IEEE 754 double precision, as
      Python does.
    - Optional arguments whose default is [None] are [option]s; Python
      truthiness is spelled out ([None], [0] and the empty string are
      falsy). *)

From Stdlib Require Import ZArith QArith Qround String Ascii List Bool
  DecimalString Lia.
From Stdlib Require Floats.SpecFloat.
Import ListNotations.

Local Open Scope string_scope.
Local Open Scope Z_scope.

(** ** Python primitives used by the module *)

Module Py.

Inductive exn : Type :=
| AssertionError (msg : string)
| ValueError (msg : string)
| TypeError (msg : string)
| ZeroDivisionError (msg : string)
| OverflowError (msg : string)
| UnboundLocalError (msg : string)
| Exception (msg : string)
| LibraryError (msg : string).

(** The two error kinds of the specification. *)
Definition is_InvalidArgument (e : exn) : bool :=
  match e with
  | AssertionError _ | ValueError _ => true
  | _ => false
  end.

Definition is_Unsupported (e : exn) : bool :=
  match e with
  | Exception _ => true
  | _ => false
  end.

(** Truthiness. *)
Definition truthy_num (q : Q) : bool := negb (Qnum q =? 0).
Definition truthy_int (z : Z) : bool := negb (z =? 0).
Definition truthy_str (s : string) : bool :=
  match s with
  | EmptyString => false
  | String _ _ => true
  end.
Definition truthy_opt {A : Type} (t : A -> bool) (o : option A) : bool :=
  match o with
  | None => false
  | Some a => t a
  end.

(** [int(x)], also what [%i] does to a float: truncation toward zero. *)
Definition int_ (q : Q) : Z := Z.quot (Qnum q) (Z.pos (Qden q)).

(** [math.ceil(x)]. *)
Definition ceil (q : Q) : Z := Qceiling q.

(** [str(n)] for an int, also [%i] and [%s] of an int. *)
Definition str_of_int (z : Z) : string := NilZero.string_of_int (Z.to_int z).

(** [%i] of a number given in millimetres times dots. *)
Definition fmt_i (q : Q) : string := str_of_int (int_ q).

(** [%c] of a [str]: exactly one character, otherwise [TypeError]. *)
Definition fmt_c (s : string) : exn + string :=
  match s with
  | String c EmptyString => inr s
  | _ => inl (TypeError "%c requires int or char")
  end.

(** [len(s)]. *)
Definition len (s : string) : Z := Z.of_nat (String.length s).

(** *** Python floats: IEEE 754 binary64, rounding to nearest even *)

Definition float : Type := SpecFloat.spec_float.
Definition float_prec : Z := 53.
Definition float_emax : Z := 1024.

(** [float(n)] for an int: the nearest double.  (Ints beyond the float
    range, which make Python raise, come out as an infinity.) *)
Definition float_of_int (z : Z) : float :=
  SpecFloat.binary_normalize float_prec float_emax z 0 false.

(** [x / y] for a non-zero [y], and [x * y]. *)
Definition float_div (x y : float) : float :=
  SpecFloat.SFdiv float_prec float_emax x y.

Definition float_mul (x y : float) : float :=
  SpecFloat.SFmul float_prec float_emax x y.

(** The double that stands for a number given as a rational: the
    correctly rounded quotient, which is the number itself for an int
    below 2^53 and for a float. *)
Definition float_of_num (q : Q) : float :=
  float_div (float_of_int (Qnum q)) (float_of_int (Z.pos (Qden q))).

Definition is_finite (x : float) : bool :=
  match x with
  | SpecFloat.S754_zero _ | SpecFloat.S754_finite _ _ _ => true
  | _ => false
  end.

(** The number a finite float denotes. *)
Definition float_value (x : float) : Q :=
  match x with
  | SpecFloat.S754_finite s m e =>
      let v := if 0 <=? e then inject_Z (Z.pos m * 2 ^ e)
               else Z.pos m # Z.to_pos (2 ^ (- e)) in
      if s then Qopp v else v
  | _ => 0%Q
  end.

(** [int(x)] for a float. *)
Definition int_of_float (x : float) : exn + Z :=
  match x with
  | SpecFloat.S754_infinity _ =>
      inl (OverflowError "cannot convert float infinity to integer")
  | SpecFloat.S754_nan =>
      inl (ValueError "cannot convert float NaN to integer")
  | _ => inr (int_ (float_value x))
  end.

(** [sub in s] for two strings: substring containment. *)
Fixpoint str_in (sub s : string) : bool :=
  String.prefix sub s
  || match s with
     | EmptyString => false
     | String _ s' => str_in sub s'
     end.

(** [x in [a, b, ...]] for a list of strings. *)
Definition list_in (x : string) (l : list string) : bool :=
  existsb (String.eqb x) l.

(** [s[:n]] and [s[n:]] for [0 <= n]. *)
Fixpoint take (n : nat) (s : string) : string :=
  match n, s with
  | S n', String c s' => String c (take n' s')
  | _, _ => EmptyString
  end.

Fixpoint drop (n : nat) (s : string) : string :=
  match n, s with
  | S n', String _ s' => drop n' s'
  | _, _ => s
  end.

(** *** The fragment of [re] the module uses

    Character classes are lists of inclusive ranges; [+] is only ever
    applied to a class.  [rmatch r bos s k] tries every way of matching
    [r] at the front of [s] ([bos]: no character consumed so far) and
    hands the rest to [k]. *)

Inductive regex : Type :=
| Eps
| Bol
| Eol
| Chr (c : ascii)
| Cls (ranges : list (ascii * ascii))
| PlusCls (ranges : list (ascii * ascii))
| Cat (r1 r2 : regex)
| Alt (r1 r2 : regex)
| Opt (r : regex).

Definition in_class (c : ascii) (ranges : list (ascii * ascii)) : bool :=
  existsb (fun r => (nat_of_ascii (fst r) <=? nat_of_ascii c)%nat
                    && (nat_of_ascii c <=? nat_of_ascii (snd r))%nat) ranges.

Fixpoint lit (s : string) : regex :=
  match s with
  | EmptyString => Eps
  | String c s' => Cat (Chr c) (lit s')
  end.

Fixpoint star_cls (ranges : list (ascii * ascii)) (k : string -> bool)
  (s : string) : bool :=
  k s
  || match s with
     | EmptyString => false
     | String c s' => in_class c ranges && star_cls ranges k s'
     end.

Fixpoint rmatch (r : regex) (bos : bool) (s : string)
  (k : bool -> string -> bool) {struct r} : bool :=
  match r with
  | Eps => k bos s
  | Bol => bos && k bos s
  | Eol =>
      match s with
      | EmptyString => k bos s
      | String "010"%char EmptyString => k bos s
      | _ => false
      end
  | Chr c =>
      match s with
      | String c' s' => Ascii.eqb c c' && k false s'
      | EmptyString => false
      end
  | Cls ranges =>
      match s with
      | String c s' => in_class c ranges && k false s'
      | EmptyString => false
      end
  | PlusCls ranges =>
      match s with
      | String c s' => in_class c ranges && star_cls ranges (k false) s'
      | EmptyString => false
      end
  | Cat r1 r2 => rmatch r1 bos s (fun bos' s' => rmatch r2 bos' s' k)
  | Alt r1 r2 => rmatch r1 bos s k || rmatch r2 bos s k
  | Opt r1 => rmatch r1 bos s k || k bos s
  end.

(** [re.match(r, s)] as a truth value: [r] matches at the start of [s]. *)
Definition re_match (r : regex) (s : string) : bool :=
  rmatch r true s (fun _ _ => true).

End Py.

Import Py.

(** ** The label object *)

Record Label : Type := mkLabel {
  height : Q;
  width : Q;
  dpmm : Q;
  code : string
}.

Definition set_code (self : Label) (c : string) : Label :=
  {| height := height self; width := width self; dpmm := dpmm self;
     code := c |}.

(** Methods: the object is threaded, an exception keeps the object as
    it is at that point. *)
Definition M (A : Type) : Type := Label -> Label * (exn + A).

Definition ret {A : Type} (a : A) : M A := fun self => (self, inr a).

Definition raise {A : Type} (e : exn) : M A := fun self => (self, inl e).

Definition bind {A B : Type} (m : M A) (f : A -> M B) : M B :=
  fun self =>
    match m self with
    | (self', inr a) => f a self'
    | (self', inl e) => (self', inl e)
    end.

Notation "x <- m ;; k" := (bind m (fun x => k))
  (at level 61, m at next level, right associativity).
Notation "m ;; k" := (bind m (fun _ => k))
  (at level 61, right associativity).

Definition get_self : M Label := fun self => (self, inr self).

(** [self.code += s] *)
Definition emit (s : string) : M unit :=
  fun self => (set_code self (code self ++ s), inr tt).

(** [assert b, msg] *)
Definition assert_ (b : bool) (msg : string) : M unit :=
  if b then ret tt else raise (AssertionError msg).

Definition lift {A : Type} (r : exn + A) : M A :=
  match r with
  | inl e => raise e
  | inr a => ret a
  end.

(** [Label(height, width, dpmm, rotate_180)]; the defaults are
    [width=110.0], [dpmm=12.0], [rotate_180=False]. *)
Definition init (h w d : Q) (rotate_180 : bool) : Label :=
  {| height := h; width := w; dpmm := d;
     code := "^XA" ++ (if rotate_180 then "^POI" else "") |}.

(** The regular expressions of the module. *)
Definition upper_digit : list (ascii * ascii) :=
  [("A"%char, "Z"%char); ("0"%char, "9"%char)].

(** [r'^[A-Z0-9]$'] *)
Definition re_glyph : regex := Cat Bol (Cat (Cls upper_digit) Eol).

(** [r'[A-Z0-9]'] *)
Definition re_glyph_loose : regex := Cls upper_digit.

(** [r'[REBA]?:[A-Z0-9\_]+\.(FNT|TTF|TTE)'] *)
Definition re_font_file : regex :=
  Cat (Opt (Cls [("R"%char, "R"%char); ("E"%char, "E"%char);
                 ("B"%char, "B"%char); ("A"%char, "A"%char)]))
   (Cat (Chr ":")
    (Cat (PlusCls [("A"%char, "Z"%char); ("0"%char, "9"%char);
                   ("_"%char, "_"%char)])
     (Cat (Chr ".")
      (Alt (lit "FNT") (Alt (lit "TTF") (lit "TTE")))))).

(** ["^[a-zA-Z0-9 ]+$"] *)
Definition re_name : regex :=
  Cat Bol
   (Cat (PlusCls [("a"%char, "z"%char); ("A"%char, "Z"%char);
                  ("0"%char, "9"%char); (" "%char, " "%char)])
    Eol).

(** The double-quote character around the [^FN] field name. *)
Definition dquote : string := String "034"%char EmptyString.

(** ** Methods without graphics *)

Definition origin (x y : Q) : M unit :=
  self <- get_self ;;
  emit ("^FO" ++ fmt_i (x * dpmm self) ++ "," ++ fmt_i (y * dpmm self)).

Definition endorigin : M unit := emit "^FS".

Definition textblock (width : Q) (justification : string) (lines : Z)
  : M unit :=
  self <- get_self ;;
  assert_ (list_in justification ["L"; "R"; "C"; "J"]) "" ;;
  emit ("^FB" ++ fmt_i (width * dpmm self) ++ "," ++ str_of_int lines
        ++ "," ++ str_of_int 0 ++ "," ++ justification ++ ","
        ++ str_of_int 0).

(** The [^FB] line-wrap fragment shared by [write_text] and
    [write_field_number]. *)
Definition line_wrap (line_width : option Q) (max_line line_spaces : Z)
  (justification : string) (hanging_indent : Z) : M unit :=
  match line_width with
  | Some lw =>
      if truthy_num lw then
        self <- get_self ;;
        assert_ (str_in justification "LCRJ") "invalid justification" ;;
        j <- lift (fmt_c justification) ;;
        emit ("^FB" ++ fmt_i (lw * dpmm self) ++ "," ++ str_of_int max_line
              ++ "," ++ str_of_int line_spaces ++ "," ++ j ++ ","
              ++ str_of_int hanging_indent)
      else ret tt
  | None => ret tt
  end.

(** [char_height and char_width and font and orientation], with the
    two numbers it guards. *)
Definition font_args (char_height char_width : option Q)
  (font orientation : string) : option (Q * Q) :=
  match char_height, char_width with
  | Some ch, Some cw =>
      if truthy_num ch && truthy_num cw && truthy_str font
         && truthy_str orientation
      then Some (ch, cw) else None
  | _, _ => None
  end.

(** The font-selection step of [write_text]. *)
Definition text_font (char_height char_width : option Q)
  (font orientation : string) : M unit :=
  match font_args char_height char_width font orientation with
  | Some (ch, cw) =>
      self <- get_self ;;
      assert_ (str_in orientation "NRIB") "invalid orientation" ;;
      if re_match re_glyph font then
        f <- lift (fmt_c font) ;;
        o <- lift (fmt_c orientation) ;;
        emit ("^A" ++ f ++ o ++ "," ++ fmt_i (ch * dpmm self) ++ ","
              ++ fmt_i (cw * dpmm self))
      else if re_match re_font_file font then
        o <- lift (fmt_c orientation) ;;
        emit ("^A@" ++ o ++ "," ++ fmt_i (ch * dpmm self) ++ ","
              ++ fmt_i (cw * dpmm self) ++ "," ++ font)
      else raise (ValueError "Invalid font.")
  | None => ret tt
  end.

Definition write_text (text : string) (char_height char_width : option Q)
  (font orientation : string) (line_width : option Q)
  (max_line line_spaces : Z) (justification : string) (hanging_indent : Z)
  : M unit :=
  text_font char_height char_width font orientation ;;
  line_wrap line_width max_line line_spaces justification hanging_indent ;;
  emit ("^FD" ++ text).

Definition set_default_font (height width : Q) (font : string) : M unit :=
  self <- get_self ;;
  assert_ (re_match re_glyph_loose font) "invalid font" ;;
  f <- lift (fmt_c font) ;;
  emit ("^CF" ++ f ++ "," ++ fmt_i (height * dpmm self) ++ ","
        ++ fmt_i (width * dpmm self)).

Definition draw_box (width height thickness : Z) (color : string)
  (rounding : Z) : M unit :=
  assert_ (str_in color "BW") "invalid color" ;;
  assert_ (rounding <=? 8) "invalid rounding" ;;
  c <- lift (fmt_c color) ;;
  emit ("^GB," ++ str_of_int width ++ "," ++ str_of_int height ++ ","
        ++ str_of_int thickness ++ "," ++ c ++ "," ++ str_of_int rounding).

Definition draw_ellipse (width height thickness : Z) (color : string)
  : M unit :=
  assert_ (str_in color "BW") "invalid color" ;;
  c <- lift (fmt_c color) ;;
  emit ("^GE," ++ str_of_int width ++ "," ++ str_of_int height ++ ","
        ++ str_of_int thickness ++ "," ++ c).

Definition print_graphic (name : string) (scale_x scale_y : Z) : M unit :=
  emit ("^XG" ++ name ++ "," ++ str_of_int scale_x ++ ","
        ++ str_of_int scale_y).

Definition run_script (filename : string) : M unit := emit "^XF%s^FS".

(** The font-selection step of [write_field_number]. *)
Definition field_font (char_height char_width : option Q)
  (font orientation : string) : M unit :=
  match font_args char_height char_width font orientation with
  | Some (ch, cw) =>
      self <- get_self ;;
      assert_ (re_match re_glyph_loose font) "invalid font" ;;
      assert_ (str_in orientation "NRIB") "invalid orientation" ;;
      f <- lift (fmt_c font) ;;
      o <- lift (fmt_c orientation) ;;
      emit ("^A" ++ f ++ o ++ "," ++ fmt_i (ch * dpmm self) ++ ","
            ++ fmt_i (cw * dpmm self))
  | None => ret tt
  end.

Definition write_field_number (number : Z) (name : option string)
  (char_height char_width : option Q) (font orientation : string)
  (line_width : option Q) (max_line line_spaces : Z)
  (justification : string) (hanging_indent : Z) : M unit :=
  field_font char_height char_width font orientation ;;
  line_wrap line_width max_line line_spaces justification hanging_indent ;;
  emit ("^FN" ++ str_of_int number) ;;
  match name with
  | Some n =>
      if truthy_str n then
        assert_ (re_match re_name n)
          "name may only contain alphanumerical characters and spaces" ;;
        emit (dquote ++ n ++ dquote)
      else ret tt
  | None => ret tt
  end.

(** [thin_bar_width] is a string (as in the module's own example) or an
    int. *)
Inductive bar_width : Type :=
| BarStr (s : string)
| BarInt (n : Z).

Definition truthy_bar (b : bar_width) : bool :=
  match b with
  | BarStr s => truthy_str s
  | BarInt n => truthy_int n
  end.

Definition str_bar (b : bar_width) : string :=
  match b with
  | BarStr s => s
  | BarInt n => str_of_int n
  end.

Definition write_barcode (height : Z) (barcode_type orientation check_digit
  print_interpretation_line print_interpretation_line_above : string)
  (thin_bar_width : option bar_width) : M unit :=
  assert_ (list_in barcode_type ["2"; "3"; "U"]) "invalid barcode type" ;;
  barcode_zpl <-
    (if (barcode_type =? "2")%string then
       ret ("^B" ++ barcode_type ++ orientation ++ "," ++ str_of_int height
            ++ "," ++ print_interpretation_line ++ ","
            ++ print_interpretation_line_above ++ "," ++ check_digit)
     else if (barcode_type =? "3")%string then
       ret ("^B" ++ barcode_type ++ orientation ++ "," ++ check_digit ++ ","
            ++ str_of_int height ++ "," ++ print_interpretation_line ++ ","
            ++ print_interpretation_line_above)
     else if (barcode_type =? "U")%string then
       ret ("^B" ++ barcode_type ++ orientation ++ "," ++ str_of_int height
            ++ "," ++ print_interpretation_line ++ ","
            ++ print_interpretation_line_above ++ "," ++ check_digit)
     else raise (UnboundLocalError "barcode_zpl")) ;;
  let bar_width_modifier :=
    match thin_bar_width with
    | Some b => if truthy_bar b then "^BY" ++ str_bar b else ""
    | None => ""
    end in
  emit (bar_width_modifier ++ barcode_zpl).

Definition dumpZPL (self : Label) : string := code self ++ "^XZ".

Definition saveFormat (name : string) : M unit :=
  fun self =>
    (set_code self (take 3 (code self) ++ ("^DF" ++ name ++ "^FS")
                    ++ drop 3 (code self)), inr tt).

(** The label of the module's example: [Label(65, 90)]. *)
Definition label0 : Label := init 65 90 12 false.

(** ** The imaging library, as far as the module calls it

    An image is an 8-bit single-band raster: [getpixel x y] is the
    luminance of the pixel in column [x] of row [y], 0 for black and 255
    for white.  An image of another mode is represented by the luminance
    that [convert('L')] reads from it, and a bilevel (mode 1) image holds
    only 0 and 255.  Resampling ([resize]) and the quantisation policy of
    [convert('1')] stay parameters of the development. *)

Module PIL.

Record Image : Type := mkImage {
  size : Z * Z;
  getpixel : Z -> Z -> Z
}.

(** [image.convert('L')] *)
Definition convert_L (im : Image) : Image := im.

(** [PIL.ImageOps.invert(image)] on an L image: the table [255 - i]. *)
Definition invert (im : Image) : Image :=
  {| size := size im; getpixel := fun x y => 255 - getpixel im x y |}.

(** [image.tobytes()] of a bilevel image: the raw packer writes each row
    most significant bit first, a set bit for a nonzero pixel, and starts
    every row on a fresh byte. *)
Definition bit_at (im : Image) (x y : Z) : bool :=
  (x <? fst (size im)) && negb (getpixel im x y =? 0).

Definition pack8 (bits : list bool) : Z :=
  fold_left (fun acc b => 2 * acc + Z.b2z b) bits 0.

Definition byte_at (im : Image) (j y : Z) : Z :=
  pack8 (map (fun i => bit_at im (8 * j + Z.of_nat i) y) (seq 0 8)).

Definition row_bytes (im : Image) (y : Z) : list Z :=
  map (fun j => byte_at im (Z.of_nat j) y)
      (seq 0 (Z.to_nat ((fst (size im) + 7) / 8))).

Definition tobytes (im : Image) : list Z :=
  flat_map (fun y => row_bytes im (Z.of_nat y))
           (seq 0 (Z.to_nat (snd (size im)))).

End PIL.

Import PIL.

(** [bytes.hex()] and [str.upper()]. *)
Definition hex_digit (n : Z) : ascii :=
  match String.get (Z.to_nat n) "0123456789abcdef" with
  | Some c => c
  | None => "0"%char
  end.

Fixpoint hex (bs : list Z) : string :=
  match bs with
  | [] => EmptyString
  | b :: bs' =>
      String (hex_digit (b / 16)) (String (hex_digit (b mod 16)) (hex bs'))
  end.

Definition upper_char (c : ascii) : ascii :=
  let n := nat_of_ascii c in
  if ((97 <=? n) && (n <=? 122))%nat then ascii_of_nat (n - 32) else c.

Fixpoint upper (s : string) : string :=
  match s with
  | EmptyString => EmptyString
  | String c s' => String (upper_char c) (upper s')
  end.

(** ** Methods with graphics, and the caller's view of the object *)

Section Graphics.

Variable resize : Image -> Z * Z -> exn + Image.
Variable convert_1 : Image -> Image.

(** The pixel size handed to [image.resize] by [_convert_image]. *)
Definition raster_size (self : Label) (width height : Q) : Z * Z :=
  (int_ (width * dpmm self), int_ (height * dpmm self)).

Definition _convert_image (image : Image) (width height : Q)
  (compression_type : string) : M string :=
  self <- get_self ;;
  image1 <- lift (resize image (raster_size self width height)) ;;
  let image2 := convert_1 (invert (convert_L image1)) in
  if (compression_type =? "A")%string then
    ret (upper (hex (tobytes image2)))
  else raise (Exception "unsupported compression type").

(** [float(image.size[1])/image.size[0]*width], for a non-zero
    [image.size[0]]: a float division and a float product. *)
Definition float_height (image : Image) (width : Q) : float :=
  float_mul
    (float_div (float_of_int (snd (size image)))
               (float_of_int (fst (size image))))
    (float_of_num width).

(** [int(float(image.size[1])/image.size[0]*width)] *)
Definition proportional_height (image : Image) (width : Q) : exn + Q :=
  if fst (size image) =? 0 then
    inl (ZeroDivisionError "float division by zero")
  else
    match int_of_float (float_height image width) with
    | inl e => inl e
    | inr z => inr (inject_Z z)
    end.

(** [if not height: height = ...] *)
Definition resolve_height (image : Image) (width height : Q) : M Q :=
  if truthy_num height then ret height
  else lift (proportional_height image width).

Definition upload_graphic (name : string) (image : Image) (width height : Q)
  : M Q :=
  height <- resolve_height image width height ;;
  assert_ ((1 <=? len name) && (len name <=? 8))
    "filename must have length [1:8]" ;;
  self <- get_self ;;
  let totalbytes :=
    (inject_Z (ceil (width * dpmm self / 8)) * height * dpmm self)%Q in
  let bytesperrow := ceil (width * dpmm self / 8)%Q in
  data <- _convert_image image width height "A" ;;
  emit ("~DG" ++ name ++ ".GRF," ++ fmt_i totalbytes ++ ","
        ++ str_of_int bytesperrow ++ "," ++ data) ;;
  ret height.

Definition write_graphic (image : Image) (width height : Q)
  (compression_type : string) : M Q :=
  height <- resolve_height image width height ;;
  self <- get_self ;;
  let totalbytes :=
    (inject_Z (ceil (width * dpmm self / 8)) * height * dpmm self)%Q in
  let bytesperrow := ceil (width * dpmm self / 8)%Q in
  data <- _convert_image image width height compression_type ;;
  (if (compression_type =? "A")%string then
     emit ("^GFA," ++ str_of_int (len data) ++ "," ++ fmt_i totalbytes ++ ","
           ++ str_of_int bytesperrow ++ "," ++ data)
   else if (compression_type =? "B")%string then
     emit ("^GFB," ++ str_of_int (len data) ++ "," ++ fmt_i totalbytes ++ ","
           ++ str_of_int bytesperrow ++ "," ++ data)
   else raise (Exception "Unsupported compression type.")) ;;
  ret height.

(** A method call, as a caller issues it. *)
Inductive Call : Type :=
| Origin (x y : Q)
| EndOrigin
| TextBlock (width : Q) (justification : string) (lines : Z)
| WriteText (text : string) (char_height char_width : option Q)
    (font orientation : string) (line_width : option Q)
    (max_line line_spaces : Z) (justification : string) (hanging_indent : Z)
| SetDefaultFont (height width : Q) (font : string)
| UploadGraphic (name : string) (image : Image) (width height : Q)
| WriteGraphic (image : Image) (width height : Q) (compression_type : string)
| DrawBox (width height thickness : Z) (color : string) (rounding : Z)
| DrawEllipse (width height thickness : Z) (color : string)
| PrintGraphic (name : string) (scale_x scale_y : Z)
| RunScript (filename : string)
| WriteFieldNumber (number : Z) (name : option string)
    (char_height char_width : option Q) (font orientation : string)
    (line_width : option Q) (max_line line_spaces : Z)
    (justification : string) (hanging_indent : Z)
| WriteBarcode (height : Z) (barcode_type orientation check_digit
    print_interpretation_line print_interpretation_line_above : string)
    (thin_bar_width : option bar_width)
| SaveFormat (name : string).

Definition discard {A : Type} (m : M A) : M unit := m ;; ret tt.

Definition call (c : Call) : M unit :=
  match c with
  | Origin x y => origin x y
  | EndOrigin => endorigin
  | TextBlock w j n => textblock w j n
  | WriteText t ch cw f o lw ml ls j hi =>
      write_text t ch cw f o lw ml ls j hi
  | SetDefaultFont h w f => set_default_font h w f
  | UploadGraphic n im w h => discard (upload_graphic n im w h)
  | WriteGraphic im w h ct => discard (write_graphic im w h ct)
  | DrawBox w h t c r => draw_box w h t c r
  | DrawEllipse w h t c => draw_ellipse w h t c
  | PrintGraphic n sx sy => print_graphic n sx sy
  | RunScript f => run_script f
  | WriteFieldNumber n nm ch cw f o lw ml ls j hi =>
      write_field_number n nm ch cw f o lw ml ls j hi
  | WriteBarcode h t o cd pil pila tbw => write_barcode h t o cd pil pila tbw
  | SaveFormat n => saveFormat n
  end.

(** A caller that keeps using the label whatever a call answered. *)
Fixpoint run (cs : list Call) (self : Label) : Label :=
  match cs with
  | [] => self
  | c :: cs' => run cs' (fst (call c self))
  end.

End Graphics.

(** ** Notions the specification uses

    These follow the wording of the specification, to compare the code
    against. *)


(** [z] is [q] with its fractional part dropped. *)
Definition truncation (q : Q) (z : Z) : Prop :=
  ((0 <= q -> inject_Z z <= q /\ q < inject_Z z + 1)
   /\ (q <= 0 -> inject_Z z - 1 < q /\ q <= inject_Z z))%Q.

(** Character kinds: ASCII digits, upper-case and lower-case letters. *)
Definition is_digit (c : ascii) : bool :=
  ((48 <=? nat_of_ascii c) && (nat_of_ascii c <=? 57))%nat.
Definition is_upper (c : ascii) : bool :=
  ((65 <=? nat_of_ascii c) && (nat_of_ascii c <=? 90))%nat.
Definition is_lower (c : ascii) : bool :=
  ((97 <=? nat_of_ascii c) && (nat_of_ascii c <=? 122))%nat.

(** "A single alphanumeric character". *)
Definition alphanumeric (c : ascii) : bool :=
  is_digit c || is_upper c || is_lower c.

Definition single_alphanumeric (s : string) : Prop :=
  exists c, s = String c "" /\ alphanumeric c = true.

(** [appends m]: whatever [m] answers, the buffer it leaves is the old
    buffer followed by some text, and the other attributes are kept. *)
Definition appends {A : Type} (m : M A) : Prop :=
  forall self, exists frag,
    fst (m self) = set_code self (code self ++ frag).

(** [pure m]: [m] never touches the object.  [atomic m]: when [m]
    raises, the object is as it was before the call. *)
Definition pure {A : Type} (m : M A) : Prop :=
  forall self, fst (m self) = self.

Definition atomic {A : Type} (m : M A) : Prop :=
  forall self self' e, m self = (self', inl e) -> self' = self.

(** Stand-ins for the imaging library in closed examples:
    nearest-neighbour resampling and quantisation at mid-grey. *)
Definition resize_nearest (im : Image) (sz : Z * Z) : exn + Image :=
  if (fst sz <=? 0) || (snd sz <=? 0) then
    inl (ValueError "height and width must be > 0")
  else
    inr {| size := sz;
           getpixel := fun x y =>
             getpixel im (x * fst (size im) / fst sz)
                         (y * snd (size im) / snd sz) |}.

Definition threshold (im : Image) : Image :=
  {| size := size im;
     getpixel := fun x y => if 128 <=? getpixel im x y then 255 else 0 |}.

(** The buffer opens with the start-of-label marker. *)
Definition starts_label (self : Label) : Prop :=
  exists rest, code self = "^XA" ++ rest.

(** The language of a pattern without anchors. *)
Fixpoint all_chars (p : ascii -> bool) (s : string) : bool :=
  match s with
  | EmptyString => true
  | String c s' => p c && all_chars p s'
  end.



(** The shapes of a font token: a glyph-set identifier, and a reference
    to a font file (drive letter, colon, name, dot, extension; whatever
    follows the extension is not looked at). *)
Definition glyph_id (font : string) : Prop :=
  exists c, font = String c "" /\ is_upper c || is_digit c = true.




(** The size fields of a raster as the specification defines them, from
    the pixel size of the bitmap. *)
Definition spec_bytes_per_row (width_dots : Z) : Z :=
  ceil (inject_Z width_dots / 8)%Q.

Definition spec_total_bytes (width_dots height_dots : Z) : Z :=
  spec_bytes_per_row width_dots * height_dots.

(** A uniform image. *)
Definition uniform (w h v : Z) : Image :=
  {| size := (w, h); getpixel := fun _ _ => v |}.

(** Bitmaps of black (0) and white (255) pixels, within the image
    bounds. *)
Definition in_bounds (im : Image) (x y : Z) : Prop :=
  0 <= x < fst (size im) /\ 0 <= y < snd (size im).

Definition monochrome (im : Image) : Prop :=
  forall x y, in_bounds im x y ->
    getpixel im x y = 0 \/ getpixel im x y = 255.

Definition all_white (im : Image) : Prop :=
  forall x y, in_bounds im x y -> getpixel im x y = 255.

Definition all_black (im : Image) : Prop :=
  forall x y, in_bounds im x y -> getpixel im x y = 0.

(** What the development asks of [convert('1')]: a bitmap that is
    already black and white keeps its size and its pixels. *)
Definition keeps_monochrome (convert_1 : Image -> Image) : Prop :=
  forall im, monochrome im ->
    size (convert_1 im) = size im
    /\ forall x y, in_bounds im x y ->
         getpixel (convert_1 im) x y = getpixel im x y.

(** Reading an upper-case hexadecimal string back: the value of the
    [i]-th pair of digits. *)
Definition hex_value (c : ascii) : option Z :=
  let n := Z.of_nat (nat_of_ascii c) in
  if (48 <=? n) && (n <=? 57) then Some (n - 48)
  else if (65 <=? n) && (n <=? 70) then Some (n - 55)
  else None.

Fixpoint byte_of_hex (s : string) (i : nat) : option Z :=
  match s with
  | String a (String b s') =>
      match i with
      | O =>
          match hex_value a, hex_value b with
          | Some x, Some y => Some (16 * x + y)
          | _, _ => None
          end
      | S i' => byte_of_hex s' i'
      end
  | _ => None
  end.


(** [oblivious m]: [m] never reads the buffer; what it appends and what
    it answers depend on the other attributes only. *)
Definition oblivious {A : Type} (m : M A) : Prop :=
  forall self, exists frag r,
    forall c, m (set_code self c) = (set_code self (c ++ frag), r).

Definition is_save_format (c : Call) : bool :=
  match c with
  | SaveFormat _ => true
  | _ => false
  end.

(** An upper-case hexadecimal digit. *)
Definition is_hex_upper (c : ascii) : bool :=
  match hex_value c with
  | Some _ => true
  | None => false
  end.

(** A character of a field name: a letter, a digit or a space. *)
Definition field_name_char (c : ascii) : bool :=
  is_lower c || is_upper c || is_digit c || Ascii.eqb c " ".

(** * Properties *)

(** ** Strings *)

Lemma append_assoc (a b c : string) : (a ++ b) ++ c = a ++ (b ++ c).
Proof.
  induction a as [|x a IH]; simpl; [reflexivity|]. now rewrite IH.
Qed.

Lemma append_nil_r (a : string) : a ++ "" = a.
Proof.
  induction a as [|x a IH]; simpl; [reflexivity|]. now rewrite IH.
Qed.

Lemma append_inv_head (a b c : string) : a ++ b = a ++ c -> b = c.
Proof.
  induction a as [|x a IH]; simpl; intros H; [exact H|].
  injection H as H. now apply IH.
Qed.

Lemma length_append (a b : string) :
  String.length (a ++ b) = (String.length a + String.length b)%nat.
Proof.
  induction a as [|x a IH]; simpl; [reflexivity|]. now rewrite IH.
Qed.

(** ** Numbers *)

Lemma int_truncation (q : Q) : truncation q (int_ q).
Proof.
  unfold truncation, int_, Qle, Qlt. destruct q as [n d]. simpl.
  pose proof (Z.quot_rem' n (Z.pos d)) as E.
  split; intros H.
  - assert (Hn : 0 <= n) by lia.
    pose proof (Z.rem_bound_pos n (Z.pos d) Hn ltac:(lia)). nia.
  - assert (Hn : n <= 0) by lia.
    pose proof (Z.rem_bound_pos_neg n (Z.pos d) ltac:(lia) Hn). nia.
Qed.

Lemma int_inject_Z (z : Z) (q : Q) : (q == inject_Z z)%Q -> int_ q = z.
Proof.
  unfold int_, Qeq. destruct q as [n d]. simpl. intros H.
  rewrite Z.mul_1_r in H. subst n. apply Z.quot_mul. lia.
Qed.

Lemma in_class_upper_digit (c : ascii) :
  in_class c upper_digit = is_upper c || is_digit c.
Proof.
  unfold in_class, upper_digit, is_upper, is_digit.
  cbn [existsb fst snd]. now rewrite orb_false_r.
Qed.

(** ** Block start: [origin] *)



(** ** Default font: [set_default_font] *)

(** C8 (as amended): [set_default_font] appends the fragment
    [^CF font,h,w] when [font] is one upper-case letter or digit, and
    fails with the assertion "invalid font", leaving the buffer as it
    was, for every [font] that is empty or starts with another
    character. *)
Theorem set_default_font_upper_or_digit (h w : Q) (font : string)
  (self : Label) :
  (forall c, font = String c "" -> is_upper c || is_digit c = true ->
     set_default_font h w font self
     = (set_code self
          (code self ++ "^CF" ++ font ++ "," ++ fmt_i (h * dpmm self) ++ ","
           ++ fmt_i (w * dpmm self)),
        inr tt))
  /\ ((font = ""
       \/ exists c rest,
            font = String c rest /\ is_upper c || is_digit c = false) ->
      set_default_font h w font self
      = (self, inl (AssertionError "invalid font"))
      /\ is_InvalidArgument (AssertionError "invalid font") = true).
Proof.
  split.
  - intros c -> Hc. unfold set_default_font, bind, get_self, assert_.
    unfold re_match, re_glyph_loose. cbn [rmatch].
    rewrite in_class_upper_digit, Hc. reflexivity.
  - intros [-> | (c & rest & -> & Hc)]; split; try reflexivity.
    unfold set_default_font, bind, get_self, assert_.
    unfold re_match, re_glyph_loose. cbn [rmatch].
    rewrite in_class_upper_digit, Hc. reflexivity.
Qed.

(** C8, the claim as stated fails: the lower-case letter [a] is a single
    alphanumeric character and is refused. *)
Lemma set_default_font_rejects_lower_case :
  single_alphanumeric "a"
  /\ set_default_font 3 2 "a" label0
     = (label0, inl (AssertionError "invalid font")).
Proof.
  split; [|reflexivity]. exists "a"%char. split; reflexivity.
Qed.

(** ** Barcodes: [write_barcode] *)

Lemma list_in_cons (x y : string) (l : list string) :
  list_in x (y :: l) = (x =? y)%string || list_in x l.
Proof. reflexivity. Qed.

(** C4 (as amended): [write_barcode] fails with the assertion "invalid
    barcode type", appending nothing, for every type other than 2, 3 and
    U; type 2 lays its fields out as orientation, height,
    interpretation line, line above, check digit; type 3 as orientation,
    check digit, height, interpretation line, line above; and the
    [^BY] bar-width fragment precedes the barcode fragment exactly when
    [thin_bar_width] is given and truthy (not the empty string, not 0). *)
Theorem write_barcode_layout (h : Z)
  (barcode_type orientation check_digit pil pila : string)
  (thin_bar_width : option bar_width) (self : Label) :
  exists modifier : string,
    (truthy_opt truthy_bar thin_bar_width = false -> modifier = "")
    /\ (forall b, thin_bar_width = Some b -> truthy_bar b = true ->
         modifier = "^BY" ++ str_bar b)
    /\ (barcode_type <> "2" -> barcode_type <> "3" -> barcode_type <> "U" ->
         write_barcode h barcode_type orientation check_digit pil pila
           thin_bar_width self
         = (self, inl (AssertionError "invalid barcode type"))
         /\ is_InvalidArgument (AssertionError "invalid barcode type") = true)
    /\ (barcode_type = "2" ->
         write_barcode h barcode_type orientation check_digit pil pila
           thin_bar_width self
         = (set_code self
              (code self ++ modifier ++ "^B2" ++ orientation ++ ","
               ++ str_of_int h ++ "," ++ pil ++ "," ++ pila ++ ","
               ++ check_digit),
            inr tt))
    /\ (barcode_type = "3" ->
         write_barcode h barcode_type orientation check_digit pil pila
           thin_bar_width self
         = (set_code self
              (code self ++ modifier ++ "^B3" ++ orientation ++ ","
               ++ check_digit ++ "," ++ str_of_int h ++ "," ++ pil ++ ","
               ++ pila),
            inr tt)).
Proof.
  exists (match thin_bar_width with
          | Some b => if truthy_bar b then "^BY" ++ str_bar b else ""
          | None => ""
          end).
  split; [|split; [|split; [|split]]].
  - destruct thin_bar_width as [b|]; simpl; [|reflexivity].
    now intros ->.
  - intros b -> Hb. now rewrite Hb.
  - intros H2 H3 HU. split; [|reflexivity].
    unfold write_barcode, bind, assert_.
    rewrite !list_in_cons.
    apply String.eqb_neq in H2, H3, HU. rewrite H2, H3, HU. reflexivity.
  - intros ->. reflexivity.
  - intros ->. reflexivity.
Qed.

(** C4, the claim as stated fails: a bar width of 0 is provided and no
    [^BY] fragment is emitted. *)
Lemma write_barcode_zero_bar_width :
  write_barcode 50 "3" "N" "N" "N" "N" (Some (BarInt 0)) label0
  = (set_code label0 "^XA^B3N,N,50,N,N", inr tt).
Proof. reflexivity. Qed.

(** ** Calls only ever append *)

Lemma set_code_same (self : Label) : set_code self (code self) = self.
Proof. now destruct self. Qed.

Lemma appends_ret {A : Type} (a : A) : appends (ret a).
Proof.
  intros self. exists "". simpl. now rewrite append_nil_r, set_code_same.
Qed.

Lemma appends_raise {A : Type} (e : exn) : appends (@raise A e).
Proof.
  intros self. exists "". simpl. now rewrite append_nil_r, set_code_same.
Qed.

Lemma appends_get_self : appends get_self.
Proof.
  intros self. exists "". simpl. now rewrite append_nil_r, set_code_same.
Qed.

Lemma appends_emit (s : string) : appends (emit s).
Proof. intros self. now exists s. Qed.

Lemma appends_assert (b : bool) (msg : string) : appends (assert_ b msg).
Proof. destruct b; [apply appends_ret | apply appends_raise]. Qed.

Lemma appends_lift {A : Type} (r : exn + A) : appends (lift r).
Proof. destruct r; [apply appends_raise | apply appends_ret]. Qed.

Lemma appends_bind {A B : Type} (m : M A) (f : A -> M B) :
  appends m -> (forall a, appends (f a)) -> appends (bind m f).
Proof.
  intros Hm Hf self. unfold bind.
  destruct (Hm self) as [f1 E1].
  destruct (m self) as [self1 [e|a]]; simpl in E1; subst self1.
  - now exists f1.
  - destruct (Hf a (set_code self (code self ++ f1))) as [f2 E2].
    exists (f1 ++ f2). rewrite E2. simpl. now rewrite append_assoc.
Qed.

Create HintDb appends.

#[local] Hint Resolve appends_ret appends_raise appends_get_self
  appends_emit appends_assert appends_lift : appends.

Ltac appends_step :=
  match goal with
  | |- appends (bind _ _) => apply appends_bind; [|intros]
  | |- appends (match ?x with _ => _ end) => destruct x
  | |- appends (let _ := _ in _) => cbv zeta
  | |- appends _ => solve [auto with appends]
  end.

Lemma appends_line_wrap lw ml ls j hi : appends (line_wrap lw ml ls j hi).
Proof. unfold line_wrap. repeat appends_step. Qed.

Lemma appends_write_text t ch cw f o lw ml ls j hi :
  appends (write_text t ch cw f o lw ml ls j hi).
Proof.
  unfold write_text, text_font. pose proof appends_line_wrap.
  repeat appends_step.
Qed.

Lemma appends_write_field_number n nm ch cw f o lw ml ls j hi :
  appends (write_field_number n nm ch cw f o lw ml ls j hi).
Proof.
  unfold write_field_number, field_font. pose proof appends_line_wrap.
  repeat appends_step.
Qed.

Lemma appends_write_barcode h t o cd pil pila tbw :
  appends (write_barcode h t o cd pil pila tbw).
Proof. unfold write_barcode. repeat appends_step. Qed.

Section GraphicsAppend.

Variable resize : Image -> Z * Z -> exn + Image.
Variable convert_1 : Image -> Image.

Lemma appends_convert_image im w h ct :
  appends (_convert_image resize convert_1 im w h ct).
Proof. unfold _convert_image. repeat appends_step. Qed.

Lemma appends_resolve_height im w h : appends (resolve_height im w h).
Proof. unfold resolve_height. repeat appends_step. Qed.

Lemma appends_upload_graphic n im w h :
  appends (upload_graphic resize convert_1 n im w h).
Proof.
  unfold upload_graphic.
  pose proof appends_convert_image. pose proof appends_resolve_height.
  repeat appends_step.
Qed.

Lemma appends_write_graphic im w h ct :
  appends (write_graphic resize convert_1 im w h ct).
Proof.
  unfold write_graphic.
  pose proof appends_convert_image. pose proof appends_resolve_height.
  repeat appends_step.
Qed.

(** Every call but [saveFormat] only appends. *)
Lemma appends_call (c : Call) :
  (forall n, c <> SaveFormat n) -> appends (call resize convert_1 c).
Proof.
  intros Hc.
  pose proof appends_write_text. pose proof appends_write_field_number.
  pose proof appends_write_barcode. pose proof appends_upload_graphic.
  pose proof appends_write_graphic.
  destruct c; simpl;
    unfold discard, origin, endorigin, textblock, set_default_font,
      draw_box, draw_ellipse, print_graphic, run_script;
    try solve [repeat appends_step].
  now contradiction (Hc name).
Qed.

End GraphicsAppend.

(** ** Failing calls *)

Lemma pure_ret {A : Type} (a : A) : pure (ret a).
Proof. now intros self. Qed.

Lemma pure_raise {A : Type} (e : exn) : pure (@raise A e).
Proof. now intros self. Qed.

Lemma pure_get_self : pure get_self.
Proof. now intros self. Qed.

Lemma pure_assert (b : bool) (msg : string) : pure (assert_ b msg).
Proof. destruct b; [apply pure_ret | apply pure_raise]. Qed.

Lemma pure_lift {A : Type} (r : exn + A) : pure (lift r).
Proof. destruct r; [apply pure_raise | apply pure_ret]. Qed.

Lemma pure_bind {A B : Type} (m : M A) (f : A -> M B) :
  pure m -> (forall a, pure (f a)) -> pure (bind m f).
Proof.
  intros Hm Hf self. unfold bind. specialize (Hm self).
  destruct (m self) as [self1 [e|a]]; simpl in Hm; subst self1.
  - reflexivity.
  - apply Hf.
Qed.

Lemma atomic_pure {A : Type} (m : M A) : pure m -> atomic m.
Proof.
  intros Hm self self' e E. specialize (Hm self). now rewrite E in Hm.
Qed.

Lemma atomic_emit (s : string) : atomic (emit s).
Proof. intros self self' e E. discriminate E. Qed.

Lemma atomic_bind_pure {A B : Type} (m : M A) (f : A -> M B) :
  pure m -> (forall a, atomic (f a)) -> atomic (bind m f).
Proof.
  intros Hm Hf self self' e. unfold bind. specialize (Hm self).
  destruct (m self) as [self1 [e1|a]]; simpl in Hm; subst self1.
  - now intros [= <- _].
  - apply Hf.
Qed.

Lemma atomic_bind_ret {A B : Type} (m : M A) (b : B) :
  atomic m -> atomic (bind m (fun _ => ret b)).
Proof.
  intros Hm self self' e. unfold bind. specialize (Hm self).
  destruct (m self) as [self1 [e1|a]].
  - intros [= <- <-]. now apply (Hm self1 e1).
  - discriminate.
Qed.

Create HintDb pure.

#[local] Hint Resolve pure_ret pure_raise pure_get_self pure_assert
  pure_lift : pure.

Ltac pure_step :=
  match goal with
  | |- pure (bind _ _) => apply pure_bind; [|intros]
  | |- pure (match ?x with _ => _ end) => destruct x
  | |- pure _ => solve [auto with pure]
  end.

Ltac atomic_step :=
  match goal with
  | |- atomic (bind _ (fun _ => ret _)) => apply atomic_bind_ret
  | |- atomic (bind _ _) =>
      apply atomic_bind_pure; [solve [repeat pure_step]|intros]
  | |- atomic (emit _) => apply atomic_emit
  | |- atomic (match ?x with _ => _ end) => destruct x
  | |- atomic (let _ := _ in _) => cbv zeta
  | |- atomic _ => apply atomic_pure; solve [repeat pure_step]
  end.

Section GraphicsAtomic.

Variable resize : Image -> Z * Z -> exn + Image.
Variable convert_1 : Image -> Image.

Lemma pure_convert_image im w h ct :
  pure (_convert_image resize convert_1 im w h ct).
Proof. unfold _convert_image. repeat pure_step. Qed.

Lemma pure_resolve_height im w h : pure (resolve_height im w h).
Proof. unfold resolve_height. repeat pure_step. Qed.

Lemma atomic_upload_graphic n im w h :
  atomic (upload_graphic resize convert_1 n im w h).
Proof.
  unfold upload_graphic.
  pose proof pure_convert_image. pose proof pure_resolve_height.
  repeat atomic_step.
Qed.

Lemma atomic_write_graphic im w h ct :
  atomic (write_graphic resize convert_1 im w h ct).
Proof.
  unfold write_graphic.
  pose proof pure_convert_image. pose proof pure_resolve_height.
  repeat atomic_step.
Qed.

End GraphicsAtomic.

Section Calls.

Variable resize : Image -> Z * Z -> exn + Image.
Variable convert_1 : Image -> Image.

Lemma atomic_call (c : Call) :
  match c with
  | WriteText _ _ _ _ _ _ _ _ _ _ => True
  | WriteFieldNumber _ _ _ _ _ _ _ _ _ _ _ => True
  | _ => atomic (call resize convert_1 c)
  end.
Proof.
  pose proof (atomic_upload_graphic resize convert_1).
  pose proof (atomic_write_graphic resize convert_1).
  destruct c; simpl; try exact I;
    unfold discard, origin, endorigin, textblock, set_default_font,
      draw_box, draw_ellipse, print_graphic, run_script, write_barcode,
      saveFormat;
    try solve [repeat atomic_step];
    try solve [apply atomic_bind_ret; auto].
  intros self self' e E. discriminate E.
Qed.

Lemma call_keeps_marker (c : Call) (self : Label) :
  starts_label self -> starts_label (fst (call resize convert_1 c self)).
Proof.
  intros [rest E].
  assert (Hs : (exists n, c = SaveFormat n) \/ forall n, c <> SaveFormat n).
  { destruct c; try (right; discriminate). left. now eexists. }
  destruct Hs as [[n ->] | Hc].
  - simpl. rewrite E. simpl. now eexists.
  - destruct (appends_call resize convert_1 c Hc self) as [frag ->].
    simpl. rewrite E. now exists (rest ++ frag).
Qed.

Lemma run_keeps_marker (cs : list Call) (self : Label) :
  starts_label self -> starts_label (run resize convert_1 cs self).
Proof.
  revert self. induction cs as [|c cs IH]; intros self H; simpl.
  - exact H.
  - apply IH. now apply call_keeps_marker.
Qed.

End Calls.

(** C1 (as amended): when [origin], [textblock], [set_default_font],
    [upload_graphic], [write_graphic], [draw_box], [draw_ellipse] or
    [write_barcode] (or any other call than the next two) raises, the
    label is exactly as before the call.  [write_text] and
    [write_field_number] check each fragment just before appending it:
    when they raise, the buffer is the old buffer followed by the
    fragments that were already appended, so the old buffer is kept as a
    prefix. *)
Theorem failed_call_buffer (resize : Image -> Z * Z -> exn + Image)
  (convert_1 : Image -> Image) (c : Call) (self self' : Label) (e : exn) :
  call resize convert_1 c self = (self', inl e) ->
  match c with
  | WriteText _ _ _ _ _ _ _ _ _ _
  | WriteFieldNumber _ _ _ _ _ _ _ _ _ _ _ =>
      exists frag, self' = set_code self (code self ++ frag)
  | _ => self' = self
  end.
Proof.
  intros E. pose proof (atomic_call resize convert_1 c) as Ha.
  destruct c; try (now apply (Ha self self' e)).
  - destruct (appends_write_text text char_height char_width font
                orientation line_width max_line line_spaces justification
                hanging_indent self) as [frag Hf].
    simpl in E. rewrite E in Hf. now exists frag.
  - destruct (appends_write_field_number number name char_height char_width
                font orientation line_width max_line line_spaces
                justification hanging_indent self) as [frag Hf].
    simpl in E. rewrite E in Hf. now exists frag.
Qed.

Lemma failed_call_buffer_witness :
  call resize_nearest threshold
    (WriteText "PN" (Some 5%Q) (Some 4%Q) "0" "N" (Some 10%Q) 1 0 "X" 0)
    label0
  = (set_code label0 "^XA^A0N,60,48",
     inl (AssertionError "invalid justification"))
  /\ exists frag,
       set_code label0 "^XA^A0N,60,48"
       = set_code label0 (code label0 ++ frag).
Proof.
  split; [reflexivity|].
  apply (failed_call_buffer resize_nearest threshold
           (WriteText "PN" (Some 5%Q) (Some 4%Q) "0" "N" (Some 10%Q) 1 0
              "X" 0)
           label0 (set_code label0 "^XA^A0N,60,48")
           (AssertionError "invalid justification")).
  reflexivity.
Defined.

(** C1, the claim as stated fails: [write_text] with a valid font and an
    invalid justification raises after the font fragment was appended,
    and [write_field_number] with an invalid name raises after the
    field-number fragment was appended. *)
Lemma failed_write_text_keeps_fragment :
  write_text "PN" (Some 5%Q) (Some 4%Q) "0" "N" (Some 10%Q) 1 0 "X" 0 label0
  = (set_code label0 "^XA^A0N,60,48",
     inl (AssertionError "invalid justification"))
  /\ write_field_number 7 (Some "a_b") None None "0" "N" None 1 0 "L" 0
       label0
     = (set_code label0 "^XA^FN7",
        inl (AssertionError
               "name may only contain alphanumerical characters and spaces")).
Proof. split; reflexivity. Qed.

(** ** [saveFormat] *)

(** C5: whatever calls were made since construction, the buffer still
    opens with the start-of-label marker, and [saveFormat name] puts
    its [^DF name ^FS] fragment right after that marker, in front of
    everything appended so far, which is kept as it was. *)
Theorem saveFormat_after_start_marker
  (resize : Image -> Z * Z -> exn + Image) (convert_1 : Image -> Image)
  (h w d : Q) (rotate_180 : bool) (cs : list Call) (name : string) :
  exists rest,
    code (run resize convert_1 cs (init h w d rotate_180)) = "^XA" ++ rest
    /\ saveFormat name (run resize convert_1 cs (init h w d rotate_180))
       = (set_code (run resize convert_1 cs (init h w d rotate_180))
            ("^XA" ++ "^DF" ++ name ++ "^FS" ++ rest),
          inr tt).
Proof.
  destruct (run_keeps_marker resize convert_1 cs (init h w d rotate_180))
    as [rest E].
  { now eexists. }
  exists rest. split; [exact E|].
  unfold saveFormat. rewrite E. simpl. now rewrite append_assoc.
Qed.

(** ** [write_text] without a character size *)

Lemma font_args_falsy (ch cw : option Q) (font orientation : string) :
  truthy_opt truthy_num ch = false \/ truthy_opt truthy_num cw = false ->
  font_args ch cw font orientation = None.
Proof.
  unfold font_args. intros [H | H].
  - destruct ch as [q|]; [|reflexivity]. simpl in H. rewrite H.
    now destruct cw.
  - destruct cw as [q|]; [|now destruct ch]. simpl in H. rewrite H.
    destruct ch; [|reflexivity]. now rewrite andb_false_r.
Qed.

Lemma line_wrap_fails (lw : option Q) (ml ls : Z) (j : string) (hi : Z)
  (self self' : Label) (e : exn) :
  line_wrap lw ml ls j hi self = (self', inl e) ->
  self' = self
  /\ (e = AssertionError "invalid justification"
      \/ e = TypeError "%c requires int or char").
Proof.
  unfold line_wrap, bind, get_self, assert_, lift, fmt_c.
  destruct lw as [q|]; [|discriminate].
  destruct (truthy_num q); [|discriminate].
  destruct (str_in j "LCRJ"); simpl.
  - destruct j as [|c [|c' j']]; simpl; try discriminate;
      intros [= <- <-]; auto.
  - intros [= <- <-]. auto.
Qed.

(** C10: when [char_height] or [char_width] is falsy ([None] or zero),
    [write_text] does not look at [font] and [orientation] at all: its
    answer is the same for any other pair; without a truthy
    [line_width] it appends just the field-data fragment, with one and
    a valid justification it appends the line-wrap fragment and then
    the field-data fragment, and when it raises, it is for the
    justification only and nothing was appended. *)
Theorem write_text_without_char_size (text : string) (ch cw : option Q)
  (font orientation : string) (lw : option Q) (ml ls : Z) (j : string)
  (hi : Z) (self : Label) :
  truthy_opt truthy_num ch = false \/ truthy_opt truthy_num cw = false ->
  (forall font' orientation',
     write_text text ch cw font orientation lw ml ls j hi self
     = write_text text ch cw font' orientation' lw ml ls j hi self)
  /\ (truthy_opt truthy_num lw = false ->
      write_text text ch cw font orientation lw ml ls j hi self
      = (set_code self (code self ++ "^FD" ++ text), inr tt))
  /\ (forall q, lw = Some q -> truthy_num q = true ->
      In j ["L"; "C"; "R"; "J"] ->
      write_text text ch cw font orientation lw ml ls j hi self
      = (set_code self
           (code self
            ++ ("^FB" ++ fmt_i (q * dpmm self) ++ "," ++ str_of_int ml
                ++ "," ++ str_of_int ls ++ "," ++ j ++ "," ++ str_of_int hi)
            ++ "^FD" ++ text),
         inr tt))
  /\ (forall self' e,
      write_text text ch cw font orientation lw ml ls j hi self
      = (self', inl e) ->
      self' = self
      /\ (e = AssertionError "invalid justification"
          \/ e = TypeError "%c requires int or char")).
Proof.
  intros H.
  assert (E : forall f o,
             write_text text ch cw f o lw ml ls j hi self
             = (line_wrap lw ml ls j hi ;; emit ("^FD" ++ text)) self).
  { intros f o. unfold write_text, text_font.
    now rewrite (font_args_falsy ch cw f o H). }
  split; [|split; [|split]].
  - intros f o. now rewrite !E.
  - intros Hlw. rewrite E. unfold line_wrap, bind.
    destruct lw as [q|]; [|reflexivity]. simpl in Hlw. now rewrite Hlw.
  - intros q -> Hq Hj. rewrite E.
    assert (Hs : str_in j "LCRJ" = true /\ fmt_c j = inr j).
    { simpl in Hj. destruct Hj as [<- | [<- | [<- | [<- | []]]]];
        split; reflexivity. }
    destruct Hs as [Hs Hc].
    unfold line_wrap, bind, get_self, assert_. rewrite Hq. cbv beta iota.
    rewrite Hs, Hc. unfold lift, ret, emit, set_code.
    cbn [code height width dpmm]. now rewrite append_assoc.
  - intros self' e. rewrite E. unfold bind.
    destruct (line_wrap lw ml ls j hi self) as [self1 [e1|u]] eqn:El.
    + intros [= <- <-]. now apply (line_wrap_fails lw ml ls j hi).
    + discriminate.
Qed.

Lemma write_text_without_char_size_witness :
  (truthy_opt truthy_num (Some 0%Q) = false
   \/ truthy_opt truthy_num (Some 4%Q) = false)
  /\ write_text "PN" (Some 0%Q) (Some 4%Q) "bad font" "Q" None 1 0 "L" 0
       label0
     = (set_code label0 "^XA^FDPN", inr tt).
Proof.
  split; [left; reflexivity|].
  apply (write_text_without_char_size "PN" (Some 0%Q) (Some 4%Q) "bad font"
           "Q" None 1 0 "L" 0 label0 (or_introl eq_refl)).
  reflexivity.
Defined.

(** ** The matcher against the language of a pattern *)

Lemma star_cls_spec (ranges : list (ascii * ascii)) (k : string -> bool)
  (s : string) :
  star_cls ranges k s = true
  <-> exists w rest, s = w ++ rest
        /\ all_chars (fun c => in_class c ranges) w = true
        /\ k rest = true.
Proof.
  induction s as [|c s IH]; simpl.
  - rewrite orb_false_r. split.
    + intros H. now exists "", "".
    + intros (w & rest & E & _ & H).
      destruct w; [|discriminate]. simpl in E. now subst rest.
  - rewrite orb_true_iff, andb_true_iff, IH. split.
    + intros [H | [Hc (w & rest & -> & Hw & H)]].
      * now exists "", (String c s).
      * exists (String c w), rest. simpl. now rewrite Hc, Hw.
    + intros (w & rest & E & Hw & H). destruct w as [|c' w].
      * left. simpl in E. now subst rest.
      * right. simpl in E, Hw. injection E as -> ->.
        apply andb_true_iff in Hw as [Hc Hw]. split; [exact Hc|].
        now exists w, rest.
Qed.





(** ** The font patterns of the module *)



Lemma all_chars_ext (p q : ascii -> bool) (s : string) :
  (forall c, p c = q c) -> all_chars p s = all_chars q s.
Proof.
  intros H. induction s as [|c s IH]; simpl; [reflexivity|].
  now rewrite H, IH.
Qed.



(** ** Font selection in [write_text] *)

Lemma orientation_facts (orientation : string) :
  In orientation ["N"; "R"; "I"; "B"] ->
  truthy_str orientation = true
  /\ str_in orientation "NRIB" = true
  /\ fmt_c orientation = inr orientation.
Proof.
  simpl. intros [<- | [<- | [<- | [<- | []]]]]; repeat split.
Qed.






(** ** Graphics: the resolved height *)

Section GraphicHeight.

Variable resize : Image -> Z * Z -> exn + Image.
Variable convert_1 : Image -> Image.

Lemma upload_graphic_runs (name : string) (image : Image) (w h : Q)
  (self : Label) :
  1 <= len name <= 8 ->
  upload_graphic resize convert_1 name image w h self
  = (let h' := if truthy_num h then inr h
               else proportional_height image w in
     match h' with
     | inl e => (self, inl e)
     | inr h1 =>
         match resize image (raster_size self w h1) with
         | inl e => (self, inl e)
         | inr r1 =>
             (set_code self
                (code self ++ "~DG" ++ name ++ ".GRF,"
                 ++ fmt_i (inject_Z (ceil (w * dpmm self / 8)) * h1
                           * dpmm self)%Q
                 ++ "," ++ str_of_int (ceil (w * dpmm self / 8)%Q) ++ ","
                 ++ upper (hex (tobytes (convert_1 (invert (convert_L r1)))))),
              inr h1)
         end
     end).
Proof.
  intros Hn.
  assert (Hl : (1 <=? len name) && (len name <=? 8) = true).
  { apply andb_true_iff. split; apply Z.leb_le; lia. }
  unfold upload_graphic, resolve_height, _convert_image, bind, get_self,
    assert_.
  rewrite Hl. cbv zeta.
  destruct (truthy_num h); cbv beta iota.
  - unfold ret at 1. cbv beta iota. unfold ret at 1. cbv beta iota.
    unfold lift.
    destruct (resize image (raster_size self w h)); reflexivity.
  - unfold lift at 1.
    destruct (proportional_height image w) as [e|h1]; [reflexivity|].
    unfold ret at 1. cbv beta iota. unfold ret at 1. cbv beta iota.
    unfold lift.
    destruct (resize image (raster_size self w h1)); reflexivity.
Qed.

Lemma write_graphic_runs (image : Image) (w h : Q) (self : Label) :
  write_graphic resize convert_1 image w h "A" self
  = (let h' := if truthy_num h then inr h
               else proportional_height image w in
     match h' with
     | inl e => (self, inl e)
     | inr h1 =>
         match resize image (raster_size self w h1) with
         | inl e => (self, inl e)
         | inr r1 =>
             let data :=
               upper (hex (tobytes (convert_1 (invert (convert_L r1))))) in
             (set_code self
                (code self ++ "^GFA," ++ str_of_int (len data) ++ ","
                 ++ fmt_i (inject_Z (ceil (w * dpmm self / 8)) * h1
                           * dpmm self)%Q
                 ++ "," ++ str_of_int (ceil (w * dpmm self / 8)%Q) ++ ","
                 ++ data),
              inr h1)
         end
     end).
Proof.
  unfold write_graphic, resolve_height, _convert_image, bind, get_self.
  cbv zeta.
  destruct (truthy_num h); cbv beta iota.
  - unfold ret at 1. cbv beta iota. unfold lift.
    destruct (resize image (raster_size self w h)); reflexivity.
  - unfold lift at 1.
    destruct (proportional_height image w) as [e|h1]; [reflexivity|].
    unfold ret at 1. cbv beta iota. unfold lift.
    destruct (resize image (raster_size self w h1)); reflexivity.
Qed.

Lemma upload_graphic_bad_name (name : string) (image : Image) (w h h1 : Q)
  (self : Label) :
  len name < 1 \/ 8 < len name ->
  (if truthy_num h then inr h else proportional_height image w) = inr h1 ->
  upload_graphic resize convert_1 name image w h self
  = (self, inl (AssertionError "filename must have length [1:8]")).
Proof.
  intros Hn Hh.
  assert (Hl : (1 <=? len name) && (len name <=? 8) = false).
  { apply andb_false_iff. destruct Hn; [left | right]; apply Z.leb_gt; lia. }
  unfold upload_graphic, resolve_height, bind, assert_. rewrite Hl.
  destruct (truthy_num h); [reflexivity|].
  now rewrite Hh.
Qed.

Lemma proportional_height_finite (image : Image) (w : Q) :
  fst (size image) <> 0 ->
  is_finite (float_height image w) = true ->
  proportional_height image w
  = inr (inject_Z (int_ (float_value (float_height image w)))).
Proof.
  intros Hw Hf. unfold proportional_height, int_of_float.
  apply Z.eqb_neq in Hw. rewrite Hw.
  now destruct (float_height image w).
Qed.

End GraphicHeight.

(** C7 (as amended): with the height omitted (0) and an image of
    non-zero native width, [upload_graphic] and [write_graphic] resolve
    the height to [float(nativeHeight) / nativeWidth * widthMm], computed
    in double precision, with its fractional part dropped ([int(...)]),
    and return that whole number when the call succeeds (a name of 1 to
    8 characters, the resize succeeding).  A 200x100 image at 50 mm
    resolves to 25; a 250x175 image at 90 mm resolves to 62, the double
    product being just below 63.  [upload_graphic] fails with the
    assertion on the file name when the name has fewer than 1 or more
    than 8 characters. *)
Theorem graphic_height_resolved (resize : Image -> Z * Z -> exn + Image)
  (convert_1 : Image -> Image) (name : string) (image : Image) (w : Q)
  (self : Label) :
  fst (size image) <> 0 ->
  is_finite (float_height image w) = true ->
  exists hz : Z,
    truncation (float_value (float_height image w)) hz
    /\ (forall r, 1 <= len name <= 8 ->
         resize image (raster_size self w (inject_Z hz)) = inr r ->
         exists frag,
           upload_graphic resize convert_1 name image w 0 self
           = (set_code self (code self ++ frag), inr (inject_Z hz)))
    /\ (forall r,
         resize image (raster_size self w (inject_Z hz)) = inr r ->
         exists frag,
           write_graphic resize convert_1 image w 0 "A" self
           = (set_code self (code self ++ frag), inr (inject_Z hz)))
    /\ (forall h, len name < 1 \/ 8 < len name ->
         upload_graphic resize convert_1 name image w h self
         = (self, inl (AssertionError "filename must have length [1:8]"))
         /\ is_InvalidArgument
              (AssertionError "filename must have length [1:8]") = true)
    /\ (size image = (200, 100) -> w = 50%Q -> hz = 25)
    /\ (size image = (250, 175) -> w = 90%Q -> hz = 62).
Proof.
  intros Hw Hf.
  exists (int_ (float_value (float_height image w))).
  pose proof (proportional_height_finite image w Hw Hf) as Hp.
  split; [apply int_truncation|]. split; [|split; [|split; [|split]]].
  - intros r Hn Hr. rewrite (upload_graphic_runs resize convert_1) by exact Hn.
    change (truthy_num 0) with false. cbv zeta iota. rewrite Hp, Hr.
    now eexists.
  - intros r Hr. rewrite (write_graphic_runs resize convert_1).
    change (truthy_num 0) with false. cbv zeta iota. rewrite Hp, Hr.
    now eexists.
  - intros h Hn. split; [|reflexivity].
    destruct (truthy_num h) eqn:Hh.
    + apply (upload_graphic_bad_name resize convert_1 name image w h h);
        [exact Hn | now rewrite Hh].
    + apply (upload_graphic_bad_name resize convert_1 name image w h
               (inject_Z (int_ (float_value (float_height image w)))));
        [exact Hn | now rewrite Hh].
  - intros Hs ->. unfold float_height. rewrite Hs. reflexivity.
  - intros Hs ->. unfold float_height. rewrite Hs. reflexivity.
Qed.

Lemma graphic_height_resolved_witness :
  fst (size (uniform 250 175 255)) <> 0
  /\ is_finite (float_height (uniform 250 175 255) 90) = true
  /\ exists hz : Z,
       hz = 62
       /\ truncation (float_value (float_height (uniform 250 175 255) 90))
            hz.
Proof.
  split; [discriminate|]. split; [reflexivity|].
  destruct (graphic_height_resolved resize_nearest threshold "LOGO"
              (uniform 250 175 255) 90 label0 ltac:(discriminate) eq_refl)
    as (hz & Ht & _ & _ & _ & _ & H62).
  exists hz. split; [now apply H62 | exact Ht].
Defined.

(** C7, the claim as stated fails: a 200x100 image at 5 mm has the
    proportional height 2.5 mm, and the call resolves and returns 2. *)
Lemma graphic_height_is_truncated :
  snd (upload_graphic resize_nearest threshold "LOGO" (uniform 200 100 255)
         5 0 label0) = inr 2%Q
  /\ ~ (2 == inject_Z 100 / inject_Z 200 * 5)%Q.
Proof.
  split; [vm_compute; reflexivity|]. intros H. discriminate H.
Qed.

(** ** Graphics: the size fields *)

Lemma size_fields_whole_dots (self : Label) (w h : Q) (wd hd : Z) :
  (w * dpmm self == inject_Z wd)%Q -> (h * dpmm self == inject_Z hd)%Q ->
  raster_size self w h = (wd, hd)
  /\ ceil (w * dpmm self / 8)%Q = spec_bytes_per_row wd
  /\ int_ (inject_Z (ceil (w * dpmm self / 8)) * h * dpmm self)%Q
     = spec_total_bytes wd hd.
Proof.
  intros Hw Hh. unfold raster_size, spec_total_bytes, spec_bytes_per_row.
  rewrite (int_inject_Z wd), (int_inject_Z hd) by assumption.
  assert (Hc : ceil (w * dpmm self / 8)%Q = ceil (inject_Z wd / 8)%Q).
  { unfold ceil. apply Qceiling_comp. now rewrite Hw. }
  rewrite Hc. repeat split.
  apply int_inject_Z. rewrite <- Qmult_assoc, Hh, <- inject_Z_mult.
  reflexivity.
Qed.

Example size_fields_96_by_50 :
  spec_bytes_per_row 96 = 12 /\ spec_total_bytes 96 50 = 600
  /\ ceil (8 * dpmm label0 / 8)%Q = 12
  /\ int_ (inject_Z (ceil (8 * dpmm label0 / 8)) * (25 # 6) * dpmm label0)%Q
     = 600.
Proof. repeat split. Qed.

(** C2, the code at a width that is not a whole number of dots: at 12
    dots per millimetre a width of 10.03125 mm is 120.375 dots and a
    height of 5 mm is 60 dots.  The bitmap is resized to 120 by 60, for
    which the size fields are 15 bytes per row and 900 bytes in all; the
    fragments carry 16 and 960. *)
Theorem graphic_size_fields_from_unrounded_width
  (resize : Image -> Z * Z -> exn + Image) (convert_1 : Image -> Image)
  (image : Image) :
  raster_size label0 (321 # 32) 5 = (120, 60)
  /\ spec_bytes_per_row 120 = 15
  /\ spec_total_bytes 120 60 = 900
  /\ match resize image (120, 60) with
     | inr r =>
         let data :=
           upper (hex (tobytes (convert_1 (invert (convert_L r))))) in
         write_graphic resize convert_1 image (321 # 32) 5 "A" label0
         = (set_code label0
              ("^XA^GFA," ++ str_of_int (len data) ++ ",960,16," ++ data),
            inr 5%Q)
         /\ upload_graphic resize convert_1 "LOGO" image (321 # 32) 5 label0
            = (set_code label0 ("^XA~DGLOGO.GRF,960,16," ++ data), inr 5%Q)
     | inl e =>
         write_graphic resize convert_1 image (321 # 32) 5 "A" label0
         = (label0, inl e)
         /\ upload_graphic resize convert_1 "LOGO" image (321 # 32) 5 label0
            = (label0, inl e)
     end.
Proof.
  split; [reflexivity|]. split; [reflexivity|]. split; [reflexivity|].
  rewrite (write_graphic_runs resize convert_1).
  rewrite (upload_graphic_runs resize convert_1) by (cbv; split; discriminate).
  change (truthy_num 5) with true. cbv zeta iota.
  change (raster_size label0 (321 # 32) 5) with (120, 60).
  destruct (resize image (120, 60)) as [e|r]; split; reflexivity.
Qed.

(** ** The raster encoding *)

Lemma hex_digit_value (n : Z) :
  0 <= n < 16 -> hex_value (upper_char (hex_digit n)) = Some n.
Proof.
  intros H. rewrite <- (Z2Nat.id n) by lia.
  assert (Hk : (Z.to_nat n < 16)%nat) by lia.
  revert Hk. generalize (Z.to_nat n). intros k Hk.
  do 16 (destruct k as [|k]; [reflexivity|]). lia.
Qed.

Lemma length_upper (s : string) : String.length (upper s) = String.length s.
Proof. induction s as [|c s IH]; simpl; congruence. Qed.

Lemma length_hex (bs : list Z) :
  String.length (hex bs) = (2 * List.length bs)%nat.
Proof. induction bs as [|b bs IH]; simpl; [reflexivity|]. rewrite IH. lia. Qed.

Lemma byte_of_upper_hex (bs : list Z) (i : nat) (b : Z) :
  Forall (fun b => 0 <= b < 256) bs ->
  nth_error bs i = Some b ->
  byte_of_hex (upper (hex bs)) i = Some b.
Proof.
  intros Hbs. revert i. induction Hbs as [|b0 bs Hb0 Hbs IH]; intros i Hi.
  - now destruct i.
  - destruct i as [|i]; cbn [nth_error] in Hi; cbn [hex upper byte_of_hex].
    + injection Hi as <-.
      rewrite !hex_digit_value.
      * f_equal. pose proof (Z.div_mod b0 16 ltac:(lia)). lia.
      * apply Z.mod_pos_bound. lia.
      * split; [apply Z.div_pos; lia | apply Z.div_lt_upper_bound; lia].
    + now apply IH.
Qed.

Lemma pack8_bound (b0 b1 b2 b3 b4 b5 b6 b7 : bool) :
  0 <= pack8 [b0; b1; b2; b3; b4; b5; b6; b7] < 256.
Proof.
  destruct b0, b1, b2, b3, b4, b5, b6, b7; cbv; split; congruence.
Qed.

Lemma pack8_testbit (b0 b1 b2 b3 b4 b5 b6 b7 : bool) (i : nat) :
  (i < 8)%nat ->
  Z.testbit (pack8 [b0; b1; b2; b3; b4; b5; b6; b7]) (7 - Z.of_nat i)
  = nth i [b0; b1; b2; b3; b4; b5; b6; b7] false.
Proof.
  intros Hi.
  do 8 (destruct i as [|i];
        [destruct b0, b1, b2, b3, b4, b5, b6, b7; reflexivity|]).
  lia.
Qed.

Lemma nth_error_flat_rows {A : Type} (f : nat -> list A) (m a n k j : nat) :
  (forall y, List.length (f y) = m) -> (k < n)%nat -> (j < m)%nat ->
  nth_error (flat_map f (seq a n)) (k * m + j) = nth_error (f (a + k)%nat) j.
Proof.
  intros Hf. revert a k. induction n as [|n IH]; intros a k Hk Hj; [lia|].
  simpl. destruct k as [|k].
  - simpl. rewrite Nat.add_0_r. rewrite nth_error_app1; [reflexivity|].
    now rewrite Hf.
  - rewrite nth_error_app2 by (rewrite Hf; simpl; lia).
    rewrite Hf. replace (S k * m + j - m)%nat with (k * m + j)%nat
      by (simpl; lia).
    rewrite IH by lia. f_equal. f_equal. lia.
Qed.

Lemma length_flat_rows {A : Type} (f : nat -> list A) (m a n : nat) :
  (forall y, List.length (f y) = m) ->
  List.length (flat_map f (seq a n)) = (n * m)%nat.
Proof.
  intros Hf. revert a. induction n as [|n IH]; intros a; simpl;
    [reflexivity|].
  now rewrite length_app, Hf, IH.
Qed.

Lemma spec_bytes_per_row_div (w : Z) : spec_bytes_per_row w = (w + 7) / 8.
Proof.
  unfold spec_bytes_per_row, ceil, Qceiling, Qfloor. simpl.
  rewrite Z.mul_1_r.
  pose proof (Z.div_mod (w + 7) 8 ltac:(lia)).
  pose proof (Z.mod_pos_bound (w + 7) 8 ltac:(lia)).
  pose proof (Z.div_mod (- w) 8 ltac:(lia)).
  pose proof (Z.mod_pos_bound (- w) 8 ltac:(lia)).
  lia.
Qed.

Lemma length_row_bytes (im : Image) (y : Z) :
  List.length (row_bytes im y) = Z.to_nat ((fst (size im) + 7) / 8).
Proof. unfold row_bytes. now rewrite length_map, length_seq. Qed.

Lemma length_tobytes (im : Image) :
  List.length (tobytes im)
  = (Z.to_nat (snd (size im)) * Z.to_nat ((fst (size im) + 7) / 8))%nat.
Proof.
  unfold tobytes. apply length_flat_rows. intros y. apply length_row_bytes.
Qed.

Lemma tobytes_nth (im : Image) (y j : nat) :
  (y < Z.to_nat (snd (size im)))%nat ->
  (j < Z.to_nat ((fst (size im) + 7) / 8))%nat ->
  nth_error (tobytes im) (y * Z.to_nat ((fst (size im) + 7) / 8) + j)
  = Some (byte_at im (Z.of_nat j) (Z.of_nat y)).
Proof.
  intros Hy Hj. unfold tobytes.
  rewrite (nth_error_flat_rows (fun y => row_bytes im (Z.of_nat y))
             (Z.to_nat ((fst (size im) + 7) / 8)) 0
             (Z.to_nat (snd (size im))) y j
             (fun y => length_row_bytes im (Z.of_nat y)) Hy Hj).
  unfold row_bytes. rewrite nth_error_map, nth_error_seq.
  apply Nat.ltb_lt in Hj. now rewrite Hj.
Qed.

Lemma tobytes_bound (im : Image) :
  Forall (fun b => 0 <= b < 256) (tobytes im).
Proof.
  apply Forall_forall. intros b Hb. unfold tobytes in Hb.
  apply in_flat_map in Hb as (y & _ & Hb). unfold row_bytes in Hb.
  apply in_map_iff in Hb as (j & <- & _). unfold byte_at.
  cbn [map seq]. apply pack8_bound.
Qed.

Lemma byte_at_testbit (im : Image) (j y : Z) (i : nat) :
  (i < 8)%nat ->
  Z.testbit (byte_at im j y) (7 - Z.of_nat i)
  = bit_at im (8 * j + Z.of_nat i) y.
Proof.
  intros Hi. unfold byte_at. cbn [map seq].
  rewrite pack8_testbit by exact Hi.
  do 8 (destruct i as [|i]; [reflexivity|]). lia.
Qed.

(** Every bit of the packed, hex-encoded rows can be read back: bit
    [7 - x mod 8] of byte [y * bytesPerRow + x / 8] is the bit of pixel
    [(x, y)]. *)
Lemma hex_tobytes_bit (im : Image) (x y : Z) :
  0 <= x < 8 * ((fst (size im) + 7) / 8) -> 0 <= y < snd (size im) ->
  exists b,
    byte_of_hex (upper (hex (tobytes im)))
      (Z.to_nat (y * ((fst (size im) + 7) / 8) + x / 8)) = Some b
    /\ Z.testbit b (7 - x mod 8) = bit_at im x y.
Proof.
  intros Hx Hy.
  pose proof (Z.div_mod x 8 ltac:(lia)) as Hdm.
  pose proof (Z.mod_pos_bound x 8 ltac:(lia)) as Hm.
  assert (Hq : 0 <= x / 8 < (fst (size im) + 7) / 8).
  { split; [apply Z.div_pos; lia | apply Z.div_lt_upper_bound; lia]. }
  exists (byte_at im (x / 8) y). split.
  - apply byte_of_upper_hex; [apply tobytes_bound|].
    replace (Z.to_nat (y * ((fst (size im) + 7) / 8) + x / 8))
      with (Z.to_nat y * Z.to_nat ((fst (size im) + 7) / 8)
            + Z.to_nat (x / 8))%nat by nia.
    rewrite tobytes_nth by lia.
    now rewrite !Z2Nat.id by lia.
  - replace (x mod 8) with (Z.of_nat (Z.to_nat (x mod 8))) by lia.
    rewrite byte_at_testbit by lia.
    f_equal. lia.
Qed.

Lemma all_zero_hex (bs : list Z) :
  Forall (fun b => b = 0) bs ->
  all_chars (Ascii.eqb "0") (upper (hex bs)) = true.
Proof. induction 1 as [|b bs -> _ IH]; [reflexivity | exact IH]. Qed.

Lemma all_ff_hex (bs : list Z) :
  Forall (fun b => b = 255) bs ->
  all_chars (Ascii.eqb "F") (upper (hex bs)) = true.
Proof. induction 1 as [|b bs -> _ IH]; [reflexivity | exact IH]. Qed.

Lemma tobytes_uniform_bits (im : Image) (v : bool) :
  (forall j i y, 0 <= j < (fst (size im) + 7) / 8 -> 0 <= i < 8 ->
     0 <= y < snd (size im) -> bit_at im (8 * j + i) y = v) ->
  Forall (fun b => b = if v then 255 else 0) (tobytes im).
Proof.
  intros H. apply Forall_forall. intros b Hb. unfold tobytes in Hb.
  apply in_flat_map in Hb as (y & Hy & Hb). unfold row_bytes in Hb.
  apply in_map_iff in Hb as (j & <- & Hj).
  apply in_seq in Hy, Hj. unfold byte_at. cbn [map seq].
  rewrite !H by lia. now destruct v.
Qed.

Lemma converted_bits (convert_1 : Image -> Image) (r : Image) :
  keeps_monochrome convert_1 -> monochrome r ->
  size (convert_1 (invert (convert_L r))) = size r
  /\ forall x y, 0 <= x -> 0 <= y < snd (size r) ->
       bit_at (convert_1 (invert (convert_L r))) x y
       = (x <? fst (size r)) && (getpixel r x y =? 0).
Proof.
  intros Hk Hr.
  assert (Hi : monochrome (invert (convert_L r))).
  { intros x y Hb. unfold invert, convert_L. cbn [getpixel].
    destruct (Hr x y Hb) as [-> | ->]; auto. }
  destruct (Hk _ Hi) as [Hs Hp]. split; [exact Hs|].
  intros x y Hx Hy. unfold bit_at. rewrite Hs.
  change (size (invert (convert_L r))) with (size r).
  destruct (x <? fst (size r)) eqn:Hlt; [|reflexivity].
  apply Z.ltb_lt in Hlt.
  assert (Hb : in_bounds r x y) by (split; lia).
  rewrite (Hp x y Hb). unfold invert, convert_L. cbn [getpixel].
  destruct (Hr x y Hb) as [-> | ->]; reflexivity.
Qed.

(** C3 (as amended): for a bitmap of black and white pixels (as the
    resize step returned it, with [convert('1')] keeping such a bitmap
    as it is), [_convert_image] returns two upper-case hexadecimal
    digits per byte, [ceil(width/8)] bytes per row, row after row; bit
    [7 - x mod 8] of byte [x / 8] of row [y] is set exactly when pixel
    [(x, y)] is inside the row and black, so the bits that pad a row to
    a whole byte are clear.  An all-white bitmap encodes to zero bytes
    only; an all-black bitmap whose width is a multiple of 8 encodes to
    0xFF bytes only. *)
Theorem convert_image_raster (resize : Image -> Z * Z -> exn + Image)
  (convert_1 : Image -> Image) (self : Label) (image r : Image) (w h : Q) :
  keeps_monochrome convert_1 ->
  resize image (raster_size self w h) = inr r ->
  monochrome r ->
  0 <= fst (size r) -> 0 <= snd (size r) ->
  exists data,
    _convert_image resize convert_1 image w h "A" self = (self, inr data)
    /\ len data = 2 * (spec_bytes_per_row (fst (size r)) * snd (size r))
    /\ (forall x y,
          0 <= x < 8 * spec_bytes_per_row (fst (size r)) ->
          0 <= y < snd (size r) ->
          exists b,
            byte_of_hex data
              (Z.to_nat (y * spec_bytes_per_row (fst (size r)) + x / 8))
            = Some b
            /\ Z.testbit b (7 - x mod 8)
               = (x <? fst (size r)) && (getpixel r x y =? 0))
    /\ (all_white r -> all_chars (Ascii.eqb "0") data = true)
    /\ (all_black r -> fst (size r) mod 8 = 0 ->
        all_chars (Ascii.eqb "F") data = true).
Proof.
  intros Hk Hres Hr Hw Hh.
  destruct (converted_bits convert_1 r Hk Hr) as [Hs Hbit].
  set (im := convert_1 (invert (convert_L r))) in *.
  rewrite spec_bytes_per_row_div.
  assert (Hq : 0 <= (fst (size r) + 7) / 8) by (apply Z.div_pos; lia).
  exists (upper (hex (tobytes im))).
  split; [|split; [|split; [|split]]].
  - unfold _convert_image, bind, get_self. cbv beta iota.
    now rewrite Hres.
  - unfold len. rewrite length_upper, length_hex, length_tobytes, Hs. nia.
  - intros x y Hx Hy.
    destruct (hex_tobytes_bit im x y) as (b & Hb & Ht);
      rewrite ?Hs; try assumption.
    exists b. rewrite Hs in Hb. split; [exact Hb|].
    rewrite Ht. apply Hbit; lia.
  - intros Hwhite. apply all_zero_hex.
    apply (tobytes_uniform_bits im false). rewrite Hs.
    intros j i y Hj Hi Hy. rewrite Hbit by lia.
    destruct (8 * j + i <? fst (size r)) eqn:Hlt; [|reflexivity].
    apply Z.ltb_lt in Hlt. rewrite Hwhite by (split; lia). reflexivity.
  - intros Hblack Hm. apply all_ff_hex.
    apply (tobytes_uniform_bits im true). rewrite Hs.
    intros j i y Hj Hi Hy. rewrite Hbit by lia.
    pose proof (Z.div_mod (fst (size r)) 8 ltac:(lia)) as Hd.
    assert (Hj' : j < fst (size r) / 8).
    { replace ((fst (size r) + 7) / 8) with (fst (size r) / 8) in Hj;
        [lia|].
      apply (Z.div_unique _ 8 _ 7); lia. }
    assert (Hlt : 8 * j + i < fst (size r)) by lia.
    apply Z.ltb_lt in Hlt. rewrite Hlt.
    rewrite Hblack by (split; lia). reflexivity.
Qed.

Lemma keeps_monochrome_threshold : keeps_monochrome threshold.
Proof.
  intros im Hm. split; [reflexivity|]. intros x y Hb. simpl.
  destruct (Hm x y Hb) as [-> | ->]; reflexivity.
Qed.

Lemma convert_image_raster_witness :
  keeps_monochrome threshold
  /\ resize_nearest (uniform 200 100 255)
       (raster_size label0 (2 # 3) (1 # 12))
     = inr {| size := (8, 1);
              getpixel := fun x y =>
                getpixel (uniform 200 100 255) (x * 200 / 8) (y * 100 / 1) |}
  /\ exists data,
       _convert_image resize_nearest threshold (uniform 200 100 255)
         (2 # 3) (1 # 12) "A" label0 = (label0, inr data)
       /\ len data = 2.
Proof.
  split; [exact keeps_monochrome_threshold|]. split; [reflexivity|].
  destruct (convert_image_raster resize_nearest threshold label0
              (uniform 200 100 255)
              {| size := (8, 1);
                 getpixel := fun x y =>
                   getpixel (uniform 200 100 255) (x * 200 / 8)
                     (y * 100 / 1) |}
              (2 # 3) (1 # 12) keeps_monochrome_threshold eq_refl)
    as (data & E & L & _).
  - intros x y _. now right.
  - simpl. lia.
  - simpl. lia.
  - exists data. split; [exact E | exact L].
Defined.

(** C3, the claim as stated fails: an all-black bitmap 4 dots wide and
    1 dot high encodes to the byte 0xF0, the four padding bits of the
    row being clear, not to 0xFF. *)
Lemma all_black_padding_bits_clear :
  keeps_monochrome threshold
  /\ all_black (uniform 4 1 0)
  /\ resize_nearest (uniform 4 1 0) (raster_size label0 (1 # 3) (1 # 12))
     = inr {| size := (4, 1);
              getpixel := fun x y =>
                getpixel (uniform 4 1 0) (x * 4 / 4) (y * 1 / 1) |}
  /\ _convert_image resize_nearest threshold (uniform 4 1 0)
       (1 # 3) (1 # 12) "A" label0 = (label0, inr "F0").
Proof.
  split; [exact keeps_monochrome_threshold|].
  split; [intros x y _; reflexivity|]. split; reflexivity.
Qed.

(** * Further properties of the builder *)

(** ** Calls never read the buffer *)

Lemma oblivious_ret {A : Type} (a : A) : oblivious (ret a).
Proof.
  intros self. exists "", (inr a). intros c. unfold ret.
  now rewrite append_nil_r.
Qed.

Lemma oblivious_raise {A : Type} (e : exn) : oblivious (@raise A e).
Proof.
  intros self. exists "", (inl e). intros c. unfold raise.
  now rewrite append_nil_r.
Qed.

Lemma oblivious_emit (s : string) : oblivious (emit s).
Proof. intros self. exists s, (inr tt). reflexivity. Qed.

Lemma oblivious_assert (b : bool) (msg : string) :
  oblivious (assert_ b msg).
Proof. destruct b; [apply oblivious_ret | apply oblivious_raise]. Qed.

Lemma oblivious_lift {A : Type} (r : exn + A) : oblivious (lift r).
Proof. destruct r; [apply oblivious_raise | apply oblivious_ret]. Qed.

Lemma oblivious_bind {A B : Type} (m : M A) (f : A -> M B) :
  oblivious m -> (forall a, oblivious (f a)) -> oblivious (bind m f).
Proof.
  intros Hm Hf self. destruct (Hm self) as (f1 & r1 & E1).
  destruct r1 as [e|a].
  - exists f1, (inl e). intros c. unfold bind. now rewrite E1.
  - destruct (Hf a self) as (f2 & r2 & E2).
    exists (f1 ++ f2), r2. intros c. unfold bind. rewrite E1, E2.
    now rewrite append_assoc.
Qed.

Lemma oblivious_get_self {B : Type} (k : Label -> M B) :
  (forall s, oblivious (k s)) ->
  (forall s c, k (set_code s c) = k s) ->
  oblivious (bind get_self k).
Proof.
  intros Hk Hc self. destruct (Hk self self) as (f & r & E).
  exists f, r. intros c. unfold bind, get_self. now rewrite Hc.
Qed.

Create HintDb oblivious.

#[local] Hint Resolve oblivious_ret oblivious_raise oblivious_emit
  oblivious_assert oblivious_lift : oblivious.

Ltac oblivious_step :=
  match goal with
  | |- oblivious (bind get_self _) =>
      apply oblivious_get_self; [intros | intros; reflexivity]
  | |- oblivious (bind _ _) => apply oblivious_bind; [|intros]
  | |- oblivious (match ?x with _ => _ end) => destruct x
  | |- oblivious (let _ := _ in _) => cbv zeta
  | |- oblivious _ => solve [auto with oblivious]
  end.

Lemma oblivious_line_wrap lw ml ls j hi :
  oblivious (line_wrap lw ml ls j hi).
Proof. unfold line_wrap. repeat oblivious_step. Qed.

Lemma oblivious_write_text t ch cw f o lw ml ls j hi :
  oblivious (write_text t ch cw f o lw ml ls j hi).
Proof.
  unfold write_text, text_font. pose proof oblivious_line_wrap.
  repeat oblivious_step.
Qed.

Lemma oblivious_write_field_number n nm ch cw f o lw ml ls j hi :
  oblivious (write_field_number n nm ch cw f o lw ml ls j hi).
Proof.
  unfold write_field_number, field_font. pose proof oblivious_line_wrap.
  repeat oblivious_step.
Qed.

Section Oblivious.

Variable resize : Image -> Z * Z -> exn + Image.
Variable convert_1 : Image -> Image.

Lemma oblivious_convert_image im w h ct :
  oblivious (_convert_image resize convert_1 im w h ct).
Proof. unfold _convert_image. repeat oblivious_step. Qed.

Lemma oblivious_resolve_height im w h : oblivious (resolve_height im w h).
Proof. unfold resolve_height. repeat oblivious_step. Qed.

Lemma oblivious_upload_graphic n im w h :
  oblivious (upload_graphic resize convert_1 n im w h).
Proof.
  unfold upload_graphic.
  pose proof oblivious_convert_image. pose proof oblivious_resolve_height.
  repeat oblivious_step.
Qed.

Lemma oblivious_write_graphic im w h ct :
  oblivious (write_graphic resize convert_1 im w h ct).
Proof.
  unfold write_graphic.
  pose proof oblivious_convert_image. pose proof oblivious_resolve_height.
  repeat oblivious_step.
Qed.

Lemma oblivious_call (c : Call) :
  is_save_format c = false -> oblivious (call resize convert_1 c).
Proof.
  intros Hc.
  pose proof oblivious_write_text. pose proof oblivious_write_field_number.
  pose proof oblivious_upload_graphic. pose proof oblivious_write_graphic.
  destruct c; try discriminate Hc; simpl;
    unfold discard, origin, endorigin, textblock, set_default_font,
      draw_box, draw_ellipse, print_graphic, run_script, write_barcode;
    repeat oblivious_step.
Qed.

End Oblivious.

(** ** Sequences of calls *)

Section Sequences.

Variable resize : Image -> Z * Z -> exn + Image.
Variable convert_1 : Image -> Image.

Lemma call_sets_code (c : Call) (self : Label) :
  exists code', fst (call resize convert_1 c self) = set_code self code'.
Proof.
  destruct (is_save_format c) eqn:Hc.
  - destruct c; try discriminate Hc. unfold call, saveFormat.
    eexists. reflexivity.
  - destruct (appends_call resize convert_1 c) with (self := self)
      as [frag E].
    + intros n ->. discriminate Hc.
    + eexists. exact E.
Qed.

Lemma run_app (cs1 cs2 : list Call) (self : Label) :
  run resize convert_1 (cs1 ++ cs2) self
  = run resize convert_1 cs2 (run resize convert_1 cs1 self).
Proof.
  revert self. induction cs1 as [|c cs1 IH]; intros self; simpl;
    [reflexivity | apply IH].
Qed.

Lemma saveFormat_call_swap (c : Call) (n : string) (self : Label) :
  is_save_format c = false -> starts_label self ->
  fst (saveFormat n (fst (call resize convert_1 c self)))
  = fst (call resize convert_1 c (fst (saveFormat n self))).
Proof.
  intros Hc [rest E].
  destruct (oblivious_call resize convert_1 c Hc self) as (frag & r & Ho).
  rewrite <- (set_code_same self) at 1. rewrite Ho.
  unfold saveFormat at 2. cbn [fst]. rewrite Ho.
  unfold saveFormat. cbn [fst code set_code]. rewrite E. simpl.
  now rewrite !append_assoc.
Qed.

End Sequences.

(** X1: however the label was built (any calls, failed ones included,
    [saveFormat] included), the stream that [dumpZPL] returns opens
    with the start-of-label marker and closes with the end-of-label
    marker. *)
Theorem dumpZPL_framed (resize : Image -> Z * Z -> exn + Image)
  (convert_1 : Image -> Image) (h w d : Q) (rotate_180 : bool)
  (cs : list Call) :
  exists body,
    dumpZPL (run resize convert_1 cs (init h w d rotate_180))
    = "^XA" ++ body ++ "^XZ".
Proof.
  destruct (run_keeps_marker resize convert_1 cs (init h w d rotate_180))
    as [rest E].
  { now eexists. }
  exists rest. unfold dumpZPL. rewrite E. reflexivity.
Qed.

(** X2: no call changes the physical parameters of the label: height,
    width and dots per millimetre after any sequence of calls are those
    given at construction. *)
Theorem run_keeps_dimensions (resize : Image -> Z * Z -> exn + Image)
  (convert_1 : Image -> Image) (cs : list Call) (self : Label) :
  height (run resize convert_1 cs self) = height self
  /\ width (run resize convert_1 cs self) = width self
  /\ dpmm (run resize convert_1 cs self) = dpmm self.
Proof.
  revert self. induction cs as [|c cs IH]; intros self; simpl.
  - repeat split.
  - destruct (call_sets_code resize convert_1 c self) as [code' E].
    destruct (IH (fst (call resize convert_1 c self))) as (H1 & H2 & H3).
    rewrite H1, H2, H3, E. repeat split.
Qed.

(** X3: a sequence of calls without [saveFormat] only ever appends:
    the buffer before is a prefix of the buffer after, whether the
    calls succeeded or raised. *)
Theorem run_appends (resize : Image -> Z * Z -> exn + Image)
  (convert_1 : Image -> Image) (cs : list Call) (self : Label) :
  forallb (fun c => negb (is_save_format c)) cs = true ->
  exists frag,
    run resize convert_1 cs self = set_code self (code self ++ frag).
Proof.
  revert self. induction cs as [|c cs IH]; intros self H; simpl.
  - exists "". now rewrite append_nil_r, set_code_same.
  - simpl in H. apply andb_true_iff in H as [Hc H].
    destruct (appends_call resize convert_1 c) with (self := self)
      as [f1 E1].
    { intros n ->. discriminate Hc. }
    destruct (IH (fst (call resize convert_1 c self)) H) as [f2 E2].
    exists (f1 ++ f2). rewrite E2, E1. simpl. now rewrite append_assoc.
Qed.

Lemma run_appends_witness :
  forallb (fun c => negb (is_save_format c))
    [Origin 0 20; WriteText "PN" None None "0" "N" None 1 0 "L" 0;
     EndOrigin] = true
  /\ exists frag,
       run resize_nearest threshold
         [Origin 0 20; WriteText "PN" None None "0" "N" None 1 0 "L" 0;
          EndOrigin] label0
       = set_code label0 (code label0 ++ frag).
Proof.
  split; [reflexivity|].
  apply (run_appends resize_nearest threshold
           [Origin 0 20; WriteText "PN" None None "0" "N" None 1 0 "L" 0;
            EndOrigin] label0).
  reflexivity.
Defined.

(** X4: [saveFormat] may be called at any point: declaring the format
    after a sequence of other calls leaves the same label as declaring
    it first and making the calls afterwards. *)
Theorem saveFormat_commutes (resize : Image -> Z * Z -> exn + Image)
  (convert_1 : Image -> Image) (cs : list Call) (n : string)
  (self : Label) :
  starts_label self ->
  forallb (fun c => negb (is_save_format c)) cs = true ->
  run resize convert_1 (cs ++ [SaveFormat n]) self
  = run resize convert_1 (SaveFormat n :: cs) self.
Proof.
  revert self. induction cs as [|c cs IH]; intros self Hs H.
  - reflexivity.
  - simpl in H. apply andb_true_iff in H as [Hc H].
    apply negb_true_iff in Hc.
    change (run resize convert_1 ((c :: cs) ++ [SaveFormat n]) self)
      with (run resize convert_1 (cs ++ [SaveFormat n])
              (fst (call resize convert_1 c self))).
    rewrite IH by (try apply call_keeps_marker; assumption).
    cbn [run].
    change (call resize convert_1 (SaveFormat n)) with (saveFormat n).
    now rewrite saveFormat_call_swap.
Qed.

Lemma saveFormat_commutes_witness :
  starts_label label0
  /\ forallb (fun c => negb (is_save_format c))
       [Origin 0 20; WriteBarcode 50 "3" "N" "N" "N" "N" None] = true
  /\ run resize_nearest threshold
       [Origin 0 20; WriteBarcode 50 "3" "N" "N" "N" "N" None;
        SaveFormat "R:LBL.ZPL"] label0
     = run resize_nearest threshold
         [SaveFormat "R:LBL.ZPL"; Origin 0 20;
          WriteBarcode 50 "3" "N" "N" "N" "N" None] label0.
Proof.
  assert (Hs : starts_label label0) by now exists "".
  split; [exact Hs|]. split; [reflexivity|].
  apply (saveFormat_commutes resize_nearest threshold
           [Origin 0 20; WriteBarcode 50 "3" "N" "N" "N" "N" None]
           "R:LBL.ZPL" label0 Hs).
  reflexivity.
Defined.

(** X5: two format declarations stack in reverse order: the fragment of
    the later [saveFormat] comes first, right after the start-of-label
    marker, and the earlier one follows it. *)
Theorem saveFormat_twice (a b : string) (self : Label) (rest : string) :
  code self = "^XA" ++ rest ->
  fst (saveFormat b (fst (saveFormat a self)))
  = set_code self
      ("^XA" ++ ("^DF" ++ b ++ "^FS") ++ ("^DF" ++ a ++ "^FS") ++ rest).
Proof.
  intros E. unfold saveFormat. cbn [fst code set_code]. rewrite E.
  cbn [take drop append]. reflexivity.
Qed.

Lemma saveFormat_twice_witness :
  code label0 = "^XA" ++ ""
  /\ fst (saveFormat "B" (fst (saveFormat "A" label0)))
     = set_code label0 "^XA^DFB^FS^DFA^FS".
Proof.
  split; [reflexivity|].
  apply (saveFormat_twice "A" "B" label0 "" eq_refl).
Defined.

(** ** Validation of the one-letter arguments *)

Lemma one_of_LCRJ (j : string) :
  str_in j "LCRJ" = true /\ fmt_c j = inr j <-> In j ["L"; "C"; "R"; "J"].
Proof.
  split.
  - destruct j as [|c [|c' j']]; intros [Hs Hc]; try discriminate Hc.
    destruct c as [[] [] [] [] [] [] [] []]; try discriminate Hs;
      simpl; auto.
  - simpl. intros [<- | [<- | [<- | [<- | []]]]]; split; reflexivity.
Qed.

Lemma one_of_BW (color : string) :
  str_in color "BW" = true /\ fmt_c color = inr color
  <-> In color ["B"; "W"].
Proof.
  split.
  - destruct color as [|c [|c' s']]; intros [Hs Hc]; try discriminate Hc.
    destruct c as [[] [] [] [] [] [] [] []]; try discriminate Hs;
      simpl; auto.
  - simpl. intros [<- | [<- | []]]; split; reflexivity.
Qed.

Lemma fmt_c_not_single (s : string) :
  fmt_c s = inr s \/ fmt_c s = inl (TypeError "%c requires int or char").
Proof. destruct s as [|c [|c' s']]; auto. Qed.

(** X6: with no character size and a truthy [line_width], [write_text]
    succeeds exactly when the justification is one of L, C, R, J.  Any
    other value raises and leaves the label untouched: the assertion
    "invalid justification" when the value is not a substring of LCRJ,
    a [TypeError] from [%c] when it is one (the empty string, LC, CRJ
    and the like pass the assertion). *)
Theorem write_text_justification (text : string) (ch cw : option Q)
  (font orientation : string) (q : Q) (ml ls : Z) (j : string) (hi : Z)
  (self : Label) :
  truthy_opt truthy_num ch = false \/ truthy_opt truthy_num cw = false ->
  truthy_num q = true ->
  (In j ["L"; "C"; "R"; "J"]
   <-> exists self',
         write_text text ch cw font orientation (Some q) ml ls j hi self
         = (self', inr tt))
  /\ (~ In j ["L"; "C"; "R"; "J"] ->
      write_text text ch cw font orientation (Some q) ml ls j hi self
      = (self,
         inl (if str_in j "LCRJ" then TypeError "%c requires int or char"
              else AssertionError "invalid justification"))).
Proof.
  intros H Hq.
  assert (E : write_text text ch cw font orientation (Some q) ml ls j hi self
              = (line_wrap (Some q) ml ls j hi ;; emit ("^FD" ++ text)) self).
  { unfold write_text, text_font.
    now rewrite (font_args_falsy ch cw font orientation H). }
  rewrite E. clear E.
  assert (Hbad : ~ In j ["L"; "C"; "R"; "J"] ->
            (line_wrap (Some q) ml ls j hi ;; emit ("^FD" ++ text)) self
            = (self,
               inl (if str_in j "LCRJ"
                    then TypeError "%c requires int or char"
                    else AssertionError "invalid justification"))).
  { intros Hn. unfold line_wrap, bind, get_self, assert_. rewrite Hq.
    cbv beta iota. destruct (str_in j "LCRJ") eqn:Hs; [|reflexivity].
    destruct (fmt_c_not_single j) as [Hc | Hc].
    - contradiction Hn. now apply one_of_LCRJ.
    - now rewrite Hc. }
  split; [|exact Hbad]. split.
  - intros Hj. apply one_of_LCRJ in Hj as [Hs Hc].
    unfold line_wrap, bind, get_self, assert_. rewrite Hq. cbv beta iota.
    rewrite Hs, Hc. now eexists.
  - intros [self' E].
    destruct (in_dec string_dec j ["L"; "C"; "R"; "J"]) as [Hj | Hn];
      [exact Hj|].
    rewrite (Hbad Hn) in E. discriminate E.
Qed.

Lemma write_text_justification_witness :
  (truthy_opt truthy_num None = false \/ truthy_opt truthy_num None = false)
  /\ truthy_num 10 = true
  /\ ~ In "LC" ["L"; "C"; "R"; "J"]
  /\ write_text "PN" None None "0" "N" (Some 10%Q) 1 0 "LC" 0 label0
     = (label0, inl (TypeError "%c requires int or char")).
Proof.
  assert (Hn : ~ In "LC" ["L"; "C"; "R"; "J"]).
  { simpl. intros [E | [E | [E | [E | []]]]]; discriminate E. }
  split; [now left|]. split; [reflexivity|]. split; [exact Hn|].
  apply (proj2 (write_text_justification "PN" None None "0" "N" 10 1 0 "LC"
                  0 label0 (or_introl eq_refl) eq_refl) Hn).
Defined.

(** X7: [textblock] succeeds exactly when the justification is one of
    L, R, C, J, appending [^FB width,lines,0,justification,0]; for any
    other value it raises the (message-less) assertion and the label is
    untouched. *)
Theorem textblock_validation (w : Q) (j : string) (lines : Z)
  (self : Label) :
  (In j ["L"; "R"; "C"; "J"] ->
   textblock w j lines self
   = (set_code self
        (code self ++ "^FB" ++ fmt_i (w * dpmm self) ++ ","
         ++ str_of_int lines ++ ",0," ++ j ++ ",0"),
      inr tt))
  /\ (~ In j ["L"; "R"; "C"; "J"] ->
      textblock w j lines self = (self, inl (AssertionError ""))).
Proof.
  split.
  - simpl. intros [<- | [<- | [<- | [<- | []]]]]; reflexivity.
  - intros Hn. unfold textblock, bind, get_self, assert_.
    assert (Hl : list_in j ["L"; "R"; "C"; "J"] = false).
    { destruct (list_in j ["L"; "R"; "C"; "J"]) eqn:E; [|reflexivity].
      contradiction Hn. unfold list_in in E.
      apply existsb_exists in E as (x & Hx & Ex).
      apply String.eqb_eq in Ex. now subst x. }
    now rewrite Hl.
Qed.

(** X8: [draw_box] accepts the colours B and W with any rounding up to
    8, negative roundings included, and appends
    [^GB,width,height,thickness,colour,rounding]; a rounding above 8
    raises "invalid rounding", a colour that is not a substring of BW
    raises "invalid color" whatever the rounding, and every colour other
    than B and W makes the call fail.  [draw_ellipse] does the same
    without a rounding.  A failed call leaves the label untouched. *)
Theorem draw_shapes_validation (w h t : Z) (color : string) (rounding : Z)
  (self : Label) :
  (In color ["B"; "W"] -> rounding <= 8 ->
   draw_box w h t color rounding self
   = (set_code self
        (code self ++ "^GB," ++ str_of_int w ++ "," ++ str_of_int h ++ ","
         ++ str_of_int t ++ "," ++ color ++ "," ++ str_of_int rounding),
      inr tt))
  /\ (In color ["B"; "W"] -> 8 < rounding ->
      draw_box w h t color rounding self
      = (self, inl (AssertionError "invalid rounding")))
  /\ (str_in color "BW" = false ->
      draw_box w h t color rounding self
      = (self, inl (AssertionError "invalid color"))
      /\ draw_ellipse w h t color self
         = (self, inl (AssertionError "invalid color")))
  /\ (~ In color ["B"; "W"] ->
      (exists e, draw_box w h t color rounding self = (self, inl e))
      /\ exists e, draw_ellipse w h t color self = (self, inl e))
  /\ (In color ["B"; "W"] ->
      draw_ellipse w h t color self
      = (set_code self
           (code self ++ "^GE," ++ str_of_int w ++ "," ++ str_of_int h
            ++ "," ++ str_of_int t ++ "," ++ color),
         inr tt)).
Proof.
  split; [|split; [|split; [|split]]].
  - intros Hc Hr. apply one_of_BW in Hc as [Hs Hc].
    apply Z.leb_le in Hr.
    unfold draw_box, bind, assert_. now rewrite Hs, Hr, Hc.
  - intros Hc Hr. apply one_of_BW in Hc as [Hs Hc].
    apply Z.leb_gt in Hr.
    unfold draw_box, bind, assert_. now rewrite Hs, Hr.
  - intros Hs. unfold draw_box, draw_ellipse, bind, assert_.
    now rewrite Hs.
  - intros Hn. unfold draw_box, draw_ellipse, bind, assert_.
    destruct (str_in color "BW") eqn:Hs.
    + destruct (fmt_c_not_single color) as [Hc | Hc].
      * contradiction Hn. now apply one_of_BW.
      * rewrite Hc. split; [|now eexists].
        destruct (rounding <=? 8); now eexists.
    + split; now eexists.
  - intros Hc. apply one_of_BW in Hc as [Hs Hc].
    unfold draw_ellipse, bind, assert_. now rewrite Hs, Hc.
Qed.

(** X9: [set_default_font] succeeds exactly when the font is one
    upper-case letter or digit.  Every other font raises and leaves the
    label untouched; a longer string that starts with an upper-case
    letter or digit gets past the unanchored pattern and is stopped by
    [%c] with a [TypeError]. *)
Theorem set_default_font_total (h w : Q) (font : string) (self : Label) :
  ((exists self', set_default_font h w font self = (self', inr tt))
   <-> glyph_id font)
  /\ (forall self' e,
        set_default_font h w font self = (self', inl e) -> self' = self)
  /\ (forall c c' rest,
        font = String c (String c' rest) ->
        is_upper c || is_digit c = true ->
        set_default_font h w font self
        = (self, inl (TypeError "%c requires int or char"))).
Proof.
  assert (E : set_default_font h w font self
              = match font with
                | String c rest =>
                    if is_upper c || is_digit c then
                      match rest with
                      | EmptyString =>
                          (set_code self
                             (code self ++ "^CF" ++ font ++ ","
                              ++ fmt_i (h * dpmm self) ++ ","
                              ++ fmt_i (w * dpmm self)), inr tt)
                      | _ => (self, inl (TypeError "%c requires int or char"))
                      end
                    else (self, inl (AssertionError "invalid font"))
                | EmptyString => (self, inl (AssertionError "invalid font"))
                end).
  { unfold set_default_font, bind, get_self, assert_, re_match,
      re_glyph_loose. cbn [rmatch].
    destruct font as [|c rest]; [reflexivity|].
    rewrite in_class_upper_digit, andb_true_r.
    destruct (is_upper c || is_digit c); [|reflexivity].
    now destruct rest. }
  rewrite E. clear E. split; [|split].
  - split.
    + intros [self' H]. destruct font as [|c rest]; [discriminate|].
      destruct (is_upper c || is_digit c) eqn:Hc; [|discriminate].
      destruct rest; [|discriminate]. now exists c.
    + intros (c & -> & ->). now eexists.
  - intros self' e H. destruct font as [|c rest]; [now injection H|].
    destruct (is_upper c || is_digit c); [|now injection H].
    destruct rest; [discriminate | now injection H].
  - intros c c' rest -> ->. reflexivity.
Qed.

(** X10: [write_barcode] either appends one fragment (types 2, 3, U) or
    raises the assertion "invalid barcode type" with the label
    untouched: [barcode_zpl] is never left unbound.  Type U lays its
    fields out like type 2: orientation, height, interpretation line,
    line above, check digit.  Orientation and the flags are embedded as
    given, without any check. *)
Theorem write_barcode_total (h : Z)
  (barcode_type orientation check_digit pil pila : string)
  (tbw : option bar_width) (self : Label) :
  (In barcode_type ["2"; "3"; "U"] ->
   exists frag,
     write_barcode h barcode_type orientation check_digit pil pila tbw self
     = (set_code self (code self ++ frag), inr tt))
  /\ (forall self' e,
        write_barcode h barcode_type orientation check_digit pil pila tbw
          self = (self', inl e) ->
        self' = self /\ e = AssertionError "invalid barcode type")
  /\ (barcode_type = "U" -> tbw = None ->
      write_barcode h barcode_type orientation check_digit pil pila tbw self
      = (set_code self
           (code self ++ "^BU" ++ orientation ++ "," ++ str_of_int h ++ ","
            ++ pil ++ "," ++ pila ++ "," ++ check_digit),
         inr tt)).
Proof.
  split; [|split].
  - simpl. intros [<- | [<- | [<- | []]]]; eexists;
      cbv - [append str_of_int set_code code str_bar truthy_bar];
      reflexivity.
  - intros self' e. unfold write_barcode, bind, assert_.
    rewrite !list_in_cons.
    destruct (barcode_type =? "2")%string; [discriminate|].
    destruct (barcode_type =? "3")%string; [discriminate|].
    destruct (barcode_type =? "U")%string; [discriminate|].
    simpl. now intros [= <- <-].
  - intros -> ->. reflexivity.
Qed.

(** ** Field names *)

Lemma field_name_class_char (c : ascii) :
  in_class c [("a"%char, "z"%char); ("A"%char, "Z"%char);
              ("0"%char, "9"%char); (" "%char, " "%char)]
  = field_name_char c.
Proof. destruct c as [[] [] [] [] [] [] [] []]; reflexivity. Qed.

Lemma all_chars_app (p : ascii -> bool) (a b : string) :
  all_chars p (a ++ b) = all_chars p a && all_chars p b.
Proof.
  induction a as [|c a IH]; simpl; [reflexivity|].
  now rewrite IH, andb_assoc.
Qed.

Lemma all_chars_weaken (p q : ascii -> bool) (s : string) :
  (forall c, p c = true -> q c = true) ->
  all_chars p s = true -> all_chars q s = true.
Proof.
  intros H. induction s as [|c s IH]; simpl; [reflexivity|].
  intros Hs. apply andb_true_iff in Hs as [Hc Hs].
  now rewrite (H c Hc), IH.
Qed.

Lemma re_name_shape (s : string) :
  re_match re_name s = true
  <-> exists w, w <> "" /\ all_chars field_name_char w = true
        /\ (s = w \/ s = w ++ String "010" "").
Proof.
  unfold re_match, re_name. cbn [rmatch]. rewrite andb_true_l.
  destruct s as [|c s].
  { split; [discriminate|]. intros (w & Hw & _ & [E | E]).
    - now subst w.
    - destruct w; [now contradiction Hw | discriminate E]. }
  rewrite andb_true_iff, star_cls_spec, field_name_class_char. split.
  - intros (Hc & w & rest & -> & Hw & Hk).
    rewrite (all_chars_ext _ _ w field_name_class_char) in Hw.
    exists (String c w). split; [discriminate|]. split.
    { simpl. now rewrite Hc, Hw. }
    destruct rest as [|c0 rest].
    + left. now rewrite append_nil_r.
    + right. simpl. f_equal. f_equal.
      destruct c0 as [[] [] [] [] [] [] [] []]; try discriminate Hk.
      destruct rest; [reflexivity | discriminate Hk].
  - intros (w & Hw & Hc & E).
    destruct w as [|c' w]; [now contradiction Hw|].
    simpl in Hc. apply andb_true_iff in Hc as [Hc Hcs].
    rewrite <- (all_chars_ext _ _ w field_name_class_char) in Hcs.
    destruct E as [E | E]; simpl in E; injection E as -> ->.
    + split; [exact Hc|]. exists w, "".
      now rewrite append_nil_r.
    + split; [exact Hc|]. now exists w, (String "010" "").
Qed.

(** X11: [write_field_number] without font and line-wrap arguments
    appends [^FN number]; with no name (or an empty one) that is all;
    a non-empty name of letters, digits and spaces follows in double
    quotes; a name holding any other character, line feeds apart, raises
    the assertion after [^FN number] has been appended, which stays in
    the buffer. *)
Theorem write_field_number_name (number : Z) (name : option string)
  (font orientation : string) (ml ls : Z) (j : string) (hi : Z)
  (self : Label) :
  (name = None \/ name = Some "" ->
   write_field_number number name None None font orientation None ml ls j
     hi self
   = (set_code self (code self ++ "^FN" ++ str_of_int number), inr tt))
  /\ (forall s, name = Some s -> s <> "" ->
        all_chars field_name_char s = true ->
        write_field_number number name None None font orientation None ml
          ls j hi self
        = (set_code self
             (code self ++ "^FN" ++ str_of_int number ++ dquote ++ s
              ++ dquote),
           inr tt))
  /\ (forall s, name = Some s ->
        all_chars (fun c => field_name_char c || Ascii.eqb c "010") s
        = false ->
        write_field_number number name None None font orientation None ml
          ls j hi self
        = (set_code self (code self ++ "^FN" ++ str_of_int number),
           inl (AssertionError
                  "name may only contain alphanumerical characters and spaces"))).
Proof.
  split; [|split].
  - intros [-> | ->]; reflexivity.
  - intros s -> Hs Hc.
    assert (Hm : re_match re_name s = true).
    { apply re_name_shape. exists s. auto. }
    unfold write_field_number, field_font, line_wrap, bind, emit, assert_.
    cbn [font_args ret fst snd code set_code height width dpmm].
    destruct s as [|c s]; [now contradiction Hs|].
    cbn [truthy_str]. rewrite Hm.
    cbn [ret code set_code height width dpmm].
    unfold set_code. cbn [code height width dpmm].
    now rewrite !append_assoc.
  - intros s -> Hc.
    assert (Hm : re_match re_name s = false).
    { destruct (re_match re_name s) eqn:E; [|reflexivity].
      apply re_name_shape in E as (w & _ & Hw & E).
      assert (Hw' : all_chars
                      (fun c => field_name_char c || Ascii.eqb c "010") w
                    = true).
      { apply (all_chars_weaken field_name_char); [|exact Hw].
        intros c ->. reflexivity. }
      destruct E as [-> | ->].
      - now rewrite Hw' in Hc.
      - rewrite all_chars_app, Hw' in Hc. discriminate Hc. }
    assert (Hs : truthy_str s = true).
    { destruct s; [discriminate Hc | reflexivity]. }
    unfold write_field_number, field_font, line_wrap, bind, emit, assert_.
    cbn [font_args ret fst snd code set_code height width dpmm].
    rewrite Hs, Hm. reflexivity.
Qed.

(** ** Graphics *)

Lemma hex_digit_upper (n : Z) :
  0 <= n < 16 -> is_hex_upper (upper_char (hex_digit n)) = true.
Proof.
  intros H. unfold is_hex_upper. now rewrite hex_digit_value.
Qed.

Lemma hex_upper_chars (bs : list Z) :
  Forall (fun b => 0 <= b < 256) bs ->
  all_chars is_hex_upper (upper (hex bs)) = true.
Proof.
  induction 1 as [|b bs Hb _ IH]; [reflexivity|].
  cbn [hex upper all_chars]. rewrite !hex_digit_upper, IH; try reflexivity.
  - apply Z.mod_pos_bound. lia.
  - split; [apply Z.div_pos; lia | apply Z.div_lt_upper_bound; lia].
Qed.

(** X12: whatever the imaging library does when resizing and
    quantising, a payload returned by [_convert_image] is made of the
    characters 0-9 and A-F only, two per byte, for [ceil(width/8)] bytes
    per row of the converted bitmap; the call only answers for
    compression type A and never touches the label. *)
Theorem convert_image_hex_payload (resize : Image -> Z * Z -> exn + Image)
  (convert_1 : Image -> Image) (image : Image) (w h : Q) (ct : string)
  (self self' : Label) (data : string) :
  _convert_image resize convert_1 image w h ct self = (self', inr data) ->
  self' = self /\ ct = "A"
  /\ all_chars is_hex_upper data = true
  /\ exists r,
       resize image (raster_size self w h) = inr r
       /\ String.length data
          = (2 * (Z.to_nat (snd (size (convert_1 (invert (convert_L r)))))
                  * Z.to_nat
                      ((fst (size (convert_1 (invert (convert_L r)))) + 7)
                       / 8)))%nat.
Proof.
  unfold _convert_image, bind, get_self. cbv beta iota.
  destruct (resize image (raster_size self w h)) as [e|r]; [discriminate|].
  cbn [lift ret]. cbv zeta.
  destruct (String.eqb_spec ct "A") as [-> | Hct]; [|discriminate].
  intros [= <- <-]. split; [reflexivity|]. split; [reflexivity|].
  split; [apply hex_upper_chars, tobytes_bound|].
  exists r. split; [reflexivity|].
  now rewrite length_upper, length_hex, length_tobytes.
Qed.

Lemma convert_image_hex_payload_witness :
  _convert_image resize_nearest threshold (uniform 4 1 0) (1 # 3) (1 # 12)
    "A" label0 = (label0, inr "F0")
  /\ all_chars is_hex_upper "F0" = true.
Proof.
  split; [reflexivity|].
  apply (convert_image_hex_payload resize_nearest threshold (uniform 4 1 0)
           (1 # 3) (1 # 12) "A" label0 label0 "F0" eq_refl).
Defined.

(** X13: [write_graphic] never emits a fragment for a compression type
    other than A, the reserved type B included: the call raises and the
    label is untouched, and once the height is resolved and the resize
    has succeeded the error is the "unsupported compression type" of
    [_convert_image], so the [^GFB] branch of [write_graphic] is never
    reached. *)
Theorem write_graphic_unsupported (resize : Image -> Z * Z -> exn + Image)
  (convert_1 : Image -> Image) (image : Image) (w h : Q) (ct : string)
  (self : Label) :
  ct <> "A" ->
  exists e,
    write_graphic resize convert_1 image w h ct self = (self, inl e)
    /\ (forall h1 r,
          (if truthy_num h then inr h else proportional_height image w)
          = inr h1 ->
          resize image (raster_size self w h1) = inr r ->
          e = Exception "unsupported compression type"
          /\ is_Unsupported e = true).
Proof.
  intros Hct. apply String.eqb_neq in Hct.
  unfold write_graphic, resolve_height, _convert_image, bind, get_self.
  cbv zeta.
  destruct (truthy_num h); cbv beta iota.
  - unfold ret at 1. cbv beta iota. unfold lift.
    destruct (resize image (raster_size self w h)) as [e|r] eqn:Er.
    + exists e. split; [reflexivity|]. intros h1 r [= <-] Hr.
      rewrite Hr in Er. discriminate Er.
    + cbn [ret]. rewrite Hct. eexists. split; [reflexivity|].
      intros h1 r' _ _. split; reflexivity.
  - unfold lift at 1.
    destruct (proportional_height image w) as [e|h1]; cbn [raise ret].
    + exists e. split; [reflexivity|]. intros h1 r E. discriminate E.
    + unfold lift.
      destruct (resize image (raster_size self w h1)) as [e|r] eqn:Er.
      * exists e. split; [reflexivity|]. intros h2 r [= <-] Hr.
        rewrite Hr in Er. discriminate Er.
      * cbn [ret]. rewrite Hct. eexists. split; [reflexivity|].
        intros h2 r' _ _. split; reflexivity.
Qed.

Lemma write_graphic_unsupported_witness :
  "B" <> "A"
  /\ exists e,
       write_graphic resize_nearest threshold (uniform 4 1 0) (1 # 3)
         (1 # 12) "B" label0 = (label0, inl e).
Proof.
  assert (H : "B" <> "A") by discriminate.
  split; [exact H|].
  destruct (write_graphic_unsupported resize_nearest threshold
              (uniform 4 1 0) (1 # 3) (1 # 12) "B" label0 H)
    as (e & E & _).
  now exists e.
Defined.

(** X14: when the width and the height are whole numbers of dots, the
    height is given, the resize returns a bitmap and the converted
    bitmap has the requested size, the graphic fragments are
    consistent: [write_graphic] appends
    [^GFA,2*total,total,bytesPerRow,data] and [upload_graphic] (for a
    name of 1 to 8 characters) [~DG name.GRF,total,bytesPerRow,data],
    with [bytesPerRow = ceil(widthDots/8)],
    [total = bytesPerRow * heightDots] and [data] holding exactly
    [2*total] hexadecimal digits; both return the height as given. *)
Theorem graphic_fragments_whole_dots
  (resize : Image -> Z * Z -> exn + Image) (convert_1 : Image -> Image)
  (name : string) (image r : Image) (w h : Q) (wd hd : Z) (self : Label) :
  truthy_num h = true ->
  (w * dpmm self == inject_Z wd)%Q -> (h * dpmm self == inject_Z hd)%Q ->
  0 <= wd -> 0 <= hd ->
  resize image (wd, hd) = inr r ->
  size (convert_1 (invert (convert_L r))) = (wd, hd) ->
  exists data,
    len data = 2 * spec_total_bytes wd hd
    /\ all_chars is_hex_upper data = true
    /\ write_graphic resize convert_1 image w h "A" self
       = (set_code self
            (code self ++ "^GFA," ++ str_of_int (2 * spec_total_bytes wd hd)
             ++ "," ++ str_of_int (spec_total_bytes wd hd) ++ ","
             ++ str_of_int (spec_bytes_per_row wd) ++ "," ++ data),
          inr h)
    /\ (1 <= len name <= 8 ->
        upload_graphic resize convert_1 name image w h self
        = (set_code self
             (code self ++ "~DG" ++ name ++ ".GRF,"
              ++ str_of_int (spec_total_bytes wd hd) ++ ","
              ++ str_of_int (spec_bytes_per_row wd) ++ "," ++ data),
           inr h)).
Proof.
  intros Hh Hw Hhd Hwd0 Hhd0 Hr Hs.
  destruct (size_fields_whole_dots self w h wd hd Hw Hhd)
    as (Hrs & Hb & Ht).
  set (data := upper (hex (tobytes (convert_1 (invert (convert_L r)))))).
  assert (Hl : len data = 2 * spec_total_bytes wd hd).
  { unfold len, data.
    rewrite length_upper, length_hex, length_tobytes, Hs.
    unfold spec_total_bytes. rewrite spec_bytes_per_row_div.
    cbn [fst snd].
    assert (0 <= (wd + 7) / 8) by (apply Z.div_pos; lia). nia. }
  exists data. split; [exact Hl|].
  split; [apply hex_upper_chars, tobytes_bound|]. split.
  - rewrite (write_graphic_runs resize convert_1). rewrite Hh. cbv zeta iota.
    rewrite Hrs, Hr. fold data. unfold fmt_i. now rewrite Hl, Ht, Hb.
  - intros Hn. rewrite (upload_graphic_runs resize convert_1) by exact Hn.
    rewrite Hh. cbv zeta iota.
    rewrite Hrs, Hr. fold data. unfold fmt_i. now rewrite Ht, Hb.
Qed.

Lemma graphic_fragments_whole_dots_witness :
  truthy_num (1 # 12) = true
  /\ ((2 # 3) * dpmm label0 == inject_Z 8)%Q
  /\ ((1 # 12) * dpmm label0 == inject_Z 1)%Q
  /\ exists data,
       len data = 2
       /\ write_graphic resize_nearest threshold (uniform 200 100 0) (2 # 3)
            (1 # 12) "A" label0
          = (set_code label0 ("^XA^GFA,2,1,1," ++ data), inr (1 # 12)%Q).
Proof.
  split; [reflexivity|]. split; [reflexivity|]. split; [reflexivity|].
  destruct (graphic_fragments_whole_dots resize_nearest threshold "LOGO"
              (uniform 200 100 0)
              {| size := (8, 1);
                 getpixel := fun x y =>
                   getpixel (uniform 200 100 0) (x * 200 / 8)
                     (y * 100 / 1) |}
              (2 # 3) (1 # 12) 8 1 label0 eq_refl eq_refl eq_refl
              ltac:(discriminate) ltac:(discriminate) eq_refl eq_refl)
    as (data & Hl & _ & Hw & _).
  exists data. split; [exact Hl | exact Hw].
Defined.

(** X15: with the height omitted and an image whose native width is 0,
    the proportional height cannot be computed: [upload_graphic] and
    [write_graphic] raise [ZeroDivisionError] before anything else is
    checked (a bad file name or compression type included) and the
    label is untouched. *)
Theorem graphic_zero_width (resize : Image -> Z * Z -> exn + Image)
  (convert_1 : Image -> Image) (name : string) (image : Image) (w : Q)
  (ct : string) (self : Label) :
  fst (size image) = 0 ->
  upload_graphic resize convert_1 name image w 0 self
  = (self, inl (ZeroDivisionError "float division by zero"))
  /\ write_graphic resize convert_1 image w 0 ct self
     = (self, inl (ZeroDivisionError "float division by zero")).
Proof.
  intros H.
  unfold upload_graphic, write_graphic, resolve_height, proportional_height,
    bind.
  change (truthy_num 0) with false. now rewrite H.
Qed.

Lemma graphic_zero_width_witness :
  fst (size (uniform 0 5 255)) = 0
  /\ upload_graphic resize_nearest threshold "" (uniform 0 5 255) 50 0 label0
     = (label0, inl (ZeroDivisionError "float division by zero")).
Proof.
  split; [reflexivity|].
  apply (graphic_zero_width resize_nearest threshold "" (uniform 0 5 255) 50
           "A" label0 eq_refl).
Defined.

(** ** Font selection in [write_field_number] *)

(** X16: when [write_field_number] gets to select a font (truthy
    character height and width, an orientation among N, R, I, B), it
    accepts one upper-case letter or digit only and appends
    [^A font orientation,h,w].  Every other non-empty font makes the
    call fail with the label untouched: the assertion "invalid font"
    when the first character is not an upper-case letter or digit, a
    [TypeError] from [%c] otherwise -- so a font-file reference such as
    E:ARIAL.TTF, which [write_text] accepts, is refused here and no
    [^A@] fragment is ever emitted. *)
Theorem write_field_number_font (number : Z) (name : option string)
  (ch cw : Q) (font orientation : string) (lw : option Q) (ml ls : Z)
  (j : string) (hi : Z) (self : Label) :
  truthy_num ch = true -> truthy_num cw = true ->
  In orientation ["N"; "R"; "I"; "B"] ->
  (forall c, font = String c "" -> is_upper c || is_digit c = true ->
     name = None -> lw = None ->
     write_field_number number name (Some ch) (Some cw) font orientation
       lw ml ls j hi self
     = (set_code self
          (code self
           ++ ("^A" ++ font ++ orientation ++ ","
               ++ fmt_i (ch * dpmm self) ++ "," ++ fmt_i (cw * dpmm self))
           ++ "^FN" ++ str_of_int number),
        inr tt))
  /\ (forall c rest, font = String c rest ->
        is_upper c || is_digit c = false ->
        write_field_number number name (Some ch) (Some cw) font orientation
          lw ml ls j hi self
        = (self, inl (AssertionError "invalid font")))
  /\ (forall c c' rest, font = String c (String c' rest) ->
        is_upper c || is_digit c = true ->
        write_field_number number name (Some ch) (Some cw) font orientation
          lw ml ls j hi self
        = (self, inl (TypeError "%c requires int or char"))).
Proof.
  intros Hh Hw Ho.
  destruct (orientation_facts orientation Ho) as (Ho1 & Ho2 & Ho3).
  assert (E : forall c rest,
            field_font (Some ch) (Some cw) (String c rest) orientation self
            = if is_upper c || is_digit c then
                match rest with
                | EmptyString =>
                    (set_code self
                       (code self ++ "^A" ++ String c rest ++ orientation
                        ++ "," ++ fmt_i (ch * dpmm self) ++ ","
                        ++ fmt_i (cw * dpmm self)), inr tt)
                | _ => (self, inl (TypeError "%c requires int or char"))
                end
              else (self, inl (AssertionError "invalid font"))).
  { intros c rest. unfold field_font, font_args.
    rewrite Hh, Hw, Ho1. cbn [truthy_str andb].
    unfold bind, get_self, assert_, re_match, re_glyph_loose.
    cbn [rmatch]. rewrite in_class_upper_digit, andb_true_r.
    destruct (is_upper c || is_digit c); [|reflexivity].
    cbv beta iota. rewrite Ho2. cbv beta iota.
    destruct rest; [|reflexivity]. cbn [fmt_c lift ret]. cbv beta iota.
    now rewrite Ho3. }
  split; [|split].
  - intros c -> Hc -> ->. unfold write_field_number. unfold bind at 1.
    rewrite E, Hc. unfold line_wrap, bind, ret, emit, set_code.
    cbn [code height width dpmm]. now rewrite !append_assoc.
  - intros c rest -> Hc. unfold write_field_number. unfold bind at 1.
    now rewrite E, Hc.
  - intros c c' rest -> Hc. unfold write_field_number. unfold bind at 1.
    now rewrite E, Hc.
Qed.

Lemma write_field_number_font_witness :
  truthy_num 5 = true /\ truthy_num 4 = true
  /\ In "N" ["N"; "R"; "I"; "B"]
  /\ write_field_number 1 None (Some 5%Q) (Some 4%Q) "E:ARIAL.TTF" "N" None
       1 0 "L" 0 label0
     = (label0, inl (TypeError "%c requires int or char")).
Proof.
  split; [reflexivity|]. split; [reflexivity|]. split; [now left|].
  apply (proj2 (proj2 (write_field_number_font 1 None 5 4 "E:ARIAL.TTF" "N"
                         None 1 0 "L" 0 label0 eq_refl eq_refl
                         (or_introl eq_refl)))
           "E"%char ":"%char "ARIAL.TTF" eq_refl eq_refl).
Defined.
